(** * quicktree: the file tree viewer of [app.py]

    A shallow embedding of the application logic of [app.py]: the pattern
    parser of [FilterDialog], and the handlers of [MainWindow] written as
    functions on an explicit window state.  The toolkit's file-system model
    and the operating system's path functions are interfaces the handlers
    are parameterised by. *)

From Stdlib Require Import ZArith Ascii String.
From stdpp Require Import base tactics decidable list gmap strings.

Local Open Scope string_scope.

(** ** Python text operations

    Text is a [string] holding one character per code point below 256.
    The operations follow [str.strip], [str.lower], [str.split], [str.join]
    and the [in] operator on that range. *)
Module PyStr.

(** [str.isspace] on one character: TAB..CR, FS..US, space, NEL and NBSP. *)
Definition is_space (c : ascii) : bool :=
  let n := nat_of_ascii c in
  (((9 <=? n) && (n <=? 13)) || ((28 <=? n) && (n <=? 32))
  || (n =? 133) || (n =? 160))%nat.

(** [str.lower] on one character: A..Z and the accented capitals
    (192..222, the multiplication sign 215 apart) move up by 32. *)
Definition lower_char (c : ascii) : ascii :=
  let n := nat_of_ascii c in
  if (((65 <=? n) && (n <=? 90))
      || ((192 <=? n) && (n <=? 222) && negb (n =? 215)))%nat
  then ascii_of_nat (n + 32) else c.

Fixpoint lower (s : string) : string :=
  match s with
  | EmptyString => EmptyString
  | String c s' => String (lower_char c) (lower s')
  end.

Fixpoint lstrip (s : string) : string :=
  match s with
  | EmptyString => EmptyString
  | String c s' => if is_space c then lstrip s' else s
  end.

Fixpoint rstrip (s : string) : string :=
  match s with
  | EmptyString => EmptyString
  | String c s' =>
      match rstrip s' with
      | EmptyString => if is_space c then EmptyString else String c EmptyString
      | t => String c t
      end
  end.

Definition strip (s : string) : string := rstrip (lstrip s).

(** [s.split(sep)] for a one-character separator: never the empty list. *)
Fixpoint split (sep : ascii) (s : string) : list string :=
  match s with
  | EmptyString => [EmptyString]
  | String c s' =>
      if Ascii.eqb c sep then EmptyString :: split sep s'
      else match split sep s' with
           | [] => [String c EmptyString]
           | h :: t => String c h :: t
           end
  end.

(** [sep.join(l)]. *)
Fixpoint join (sep : string) (l : list string) : string :=
  match l with
  | [] => EmptyString
  | [x] => x
  | x :: rest => x ++ sep ++ join sep rest
  end.

(** [needle in hay]. *)
Fixpoint contains (needle hay : string) : bool :=
  String.prefix needle hay ||
  match hay with
  | EmptyString => false
  | String _ hay' => contains needle hay'
  end.

(** Truthiness of a string: [if s] holds for the non-empty ones. *)
Definition truthy (s : string) : bool :=
  match s with EmptyString => false | String _ _ => true end.

(** Every character is white space. *)
Fixpoint all_space (s : string) : bool :=
  match s with
  | EmptyString => true
  | String c s' => is_space c && all_space s'
  end.

End PyStr.

(** ** The toolkit and the operating system, as the handlers see them *)

(** A [QModelIndex] is the list of row numbers leading to a node, the
    node's own row first and the top-level row last.  The invalid index
    (the hidden root of the model) is the empty list, and [parent] drops
    the first row. *)
Abbreviation QModelIndex := (list nat).

Definition isValid (idx : QModelIndex) : bool :=
  match idx with [] => false | _ :: _ => true end.

Definition parent (idx : QModelIndex) : QModelIndex := tail idx.

(** The queries [app.py] makes of [QFileSystemModel]: the nodes the model
    has loaded when a handler runs. *)
Record QFileSystemModel := {
  fileName : QModelIndex -> string;
  isDir : QModelIndex -> bool;
  rowCount : QModelIndex -> nat;
  filePath : QModelIndex -> string;
  (** [model.index(path)] *)
  index_of_path : string -> QModelIndex
}.

(** [model.index(row, 0, parent)]: invalid when the row is out of range. *)
Definition model_index (m : QFileSystemModel) (row : nat)
    (par : QModelIndex) : QModelIndex :=
  if (row <? rowCount m par)%nat then row :: par else [].

(** The functions of [os], [os.path] and [pathlib] the handlers call. *)
Record OsPath := {
  getcwd : string;
  abspath : string -> string;
  isdir : string -> bool;
  dirname : string -> string;
  (** [str(Path(p))] *)
  Path_str : string -> string
}.

(** The window: what the handlers read and write.  [warnings] and
    [startfile_calls] log the modal dialogs shown and the [os.startfile]
    calls made, oldest first.  [popped] is a ghost log of the indices the
    search walk has taken off its stack (line 197), oldest first. *)
Record MainWindow := mkMainWindow {
  rootIndex : QModelIndex;
  expanded : gset (list nat);
  updatesEnabled : bool;
  selectedRows : list QModelIndex;
  search_text : string;
  status_message : string;
  status_timeout : Z;
  clipboard : string;
  nameFilters : list string;
  nameFilterDisables : bool;
  warnings : list (string * string);
  startfile_calls : list string;
  popped : list QModelIndex
}.

(** *** Toolkit calls on the window *)

Definition tree_setRootIndex (idx : QModelIndex) (w : MainWindow) :=
  mkMainWindow idx (expanded w) (updatesEnabled w) (selectedRows w)
    (search_text w) (status_message w) (status_timeout w) (clipboard w)
    (nameFilters w) (nameFilterDisables w) (warnings w) (startfile_calls w)
    (popped w).

Definition set_expanded (e : gset (list nat)) (w : MainWindow) :=
  mkMainWindow (rootIndex w) e (updatesEnabled w) (selectedRows w)
    (search_text w) (status_message w) (status_timeout w) (clipboard w)
    (nameFilters w) (nameFilterDisables w) (warnings w) (startfile_calls w)
    (popped w).

(** [tree.expand(idx)] *)
Definition tree_expand (idx : QModelIndex) (w : MainWindow) :=
  set_expanded ({[ idx ]} ∪ expanded w) w.

(** [tree.collapseAll()] *)
Definition tree_collapseAll (w : MainWindow) := set_expanded ∅ w.

Definition tree_setUpdatesEnabled (b : bool) (w : MainWindow) :=
  mkMainWindow (rootIndex w) (expanded w) b (selectedRows w)
    (search_text w) (status_message w) (status_timeout w) (clipboard w)
    (nameFilters w) (nameFilterDisables w) (warnings w) (startfile_calls w)
    (popped w).

Definition set_search_text (s : string) (w : MainWindow) :=
  mkMainWindow (rootIndex w) (expanded w) (updatesEnabled w) (selectedRows w)
    s (status_message w) (status_timeout w) (clipboard w)
    (nameFilters w) (nameFilterDisables w) (warnings w) (startfile_calls w)
    (popped w).

(** [statusBar().showMessage(msg, timeout)]; the timeout defaults to 0. *)
Definition showMessage (msg : string) (timeout : Z) (w : MainWindow) :=
  mkMainWindow (rootIndex w) (expanded w) (updatesEnabled w) (selectedRows w)
    (search_text w) msg timeout (clipboard w)
    (nameFilters w) (nameFilterDisables w) (warnings w) (startfile_calls w)
    (popped w).

(** [QApplication.clipboard().setText(s)] *)
Definition clipboard_setText (s : string) (w : MainWindow) :=
  mkMainWindow (rootIndex w) (expanded w) (updatesEnabled w) (selectedRows w)
    (search_text w) (status_message w) (status_timeout w) s
    (nameFilters w) (nameFilterDisables w) (warnings w) (startfile_calls w)
    (popped w).

Definition model_setNameFilters (l : list string) (w : MainWindow) :=
  mkMainWindow (rootIndex w) (expanded w) (updatesEnabled w) (selectedRows w)
    (search_text w) (status_message w) (status_timeout w) (clipboard w)
    l (nameFilterDisables w) (warnings w) (startfile_calls w) (popped w).

Definition model_setNameFilterDisables (b : bool) (w : MainWindow) :=
  mkMainWindow (rootIndex w) (expanded w) (updatesEnabled w) (selectedRows w)
    (search_text w) (status_message w) (status_timeout w) (clipboard w)
    (nameFilters w) b (warnings w) (startfile_calls w) (popped w).

(** [QMessageBox.warning(self, title, text)] *)
Definition QMessageBox_warning (title text : string) (w : MainWindow) :=
  mkMainWindow (rootIndex w) (expanded w) (updatesEnabled w) (selectedRows w)
    (search_text w) (status_message w) (status_timeout w) (clipboard w)
    (nameFilters w) (nameFilterDisables w) (warnings w ++ [(title, text)])
    (startfile_calls w) (popped w).

(** [os.startfile(path)] *)
Definition os_startfile (path : string) (w : MainWindow) :=
  mkMainWindow (rootIndex w) (expanded w) (updatesEnabled w) (selectedRows w)
    (search_text w) (status_message w) (status_timeout w) (clipboard w)
    (nameFilters w) (nameFilterDisables w) (warnings w)
    (startfile_calls w ++ [path]) (popped w).

(** Ghost: the walk took [idx] off its stack. *)
Definition note_pop (idx : QModelIndex) (w : MainWindow) :=
  mkMainWindow (rootIndex w) (expanded w) (updatesEnabled w) (selectedRows w)
    (search_text w) (status_message w) (status_timeout w) (clipboard w)
    (nameFilters w) (nameFilterDisables w) (warnings w) (startfile_calls w)
    (popped w ++ [idx]).

(** The line feed of the warning text. *)
Definition nl : string := String (ascii_of_nat 10) EmptyString.

(** ** FilterDialog *)

(** [FilterDialog.patterns], on the text of the pattern input. *)
Definition patterns (text : string) : list string :=
  let raw := PyStr.strip text in
  if negb (PyStr.truthy raw) then []
  else
    let parts := map PyStr.strip (PyStr.split ";" raw) in
    filter (fun p => PyStr.truthy p = true) parts.

(** ** MainWindow *)

Section Handlers.

Variable os : OsPath.
Variable m : QFileSystemModel.

(** The window [__init__] builds: the working directory as root, nothing
    expanded or selected, no name filter. *)
Definition MainWindow_init : MainWindow :=
  mkMainWindow (index_of_path m (getcwd os)) ∅ true [] EmptyString
    ("Root: " ++ Path_str os (getcwd os)) 0 EmptyString [] true [] [] [].

Definition _set_status_root (root : string) (w : MainWindow) : MainWindow :=
  showMessage ("Root: " ++ root) 0 w.

(** *** The search walk *)

(** Lines 204-207: expand [p] and each of its parents, up to the invalid
    index. *)
Fixpoint expand_with_parents (p : QModelIndex) (w : MainWindow) : MainWindow :=
  match p with
  | [] => w
  | _ :: p' => expand_with_parents p' (tree_expand p w)
  end.

(** Lines 212-215: push the valid children of [idx], last row first, so
    that row 0 ends on top.  The head of the list is the top of the
    stack. *)
Definition push_children (idx : QModelIndex) (rows : nat)
    (stack : list QModelIndex) : list QModelIndex :=
  fold_left
    (fun st r =>
       let child := model_index m r idx in
       if isValid child then child :: st else st)
    (rev (seq 0 rows)) stack.

(** Truthiness of a list: [while stack] holds for the non-empty ones. *)
Definition nonempty {A} (l : list A) : bool :=
  match l with [] => false | _ :: _ => true end.

Record walk_state := mkWalk {
  ws_stack : list QModelIndex;
  ws_remaining : Z;
  ws_win : MainWindow
}.

(** One turn of the loop of [_expand_matching_under] (lines 197-215). *)
Definition walk_iter (needle : string) (st : walk_state) : walk_state :=
  match ws_stack st with
  | [] => st
  | idx :: stack =>
      let remaining := (ws_remaining st - 1)%Z in
      let w := note_pop idx (ws_win st) in
      if negb (isValid idx) then mkWalk stack remaining w
      else
        let name := PyStr.lower (fileName m idx) in
        let w :=
          if PyStr.contains needle name then expand_with_parents idx w
          else w in
        let stack :=
          if isDir m idx then push_children idx (rowCount m idx) stack
          else stack in
        mkWalk stack remaining w
  end.

(** [while stack and remaining > 0], run for at most [fuel] turns. *)
Fixpoint walk_loop (fuel : nat) (needle : string) (st : walk_state)
    : walk_state :=
  match fuel with
  | O => st
  | S fuel' =>
      if nonempty (ws_stack st) && (0 <? ws_remaining st)%Z
      then walk_loop fuel' needle (walk_iter needle st)
      else st
  end.

(** The loop started as line 194-195 start it; [remaining] drops by one a
    turn, so [max_nodes] turns of fuel are enough (see [walk_loop_exits]). *)
Definition walk_from (par : QModelIndex) (needle : string) (max_nodes : Z)
    (w : MainWindow) : walk_state :=
  walk_loop (Z.to_nat max_nodes) needle (mkWalk [par] max_nodes w).

Definition _expand_matching_under (par : QModelIndex) (needle : string)
    (max_nodes : Z) (w : MainWindow) : Z * MainWindow :=
  let st := walk_from par needle max_nodes w in
  (ws_remaining st, ws_win st).

Definition _filter_tree (needle : string) (w : MainWindow) : MainWindow :=
  let w := tree_setUpdatesEnabled false w in
  let w := tree_collapseAll w in
  let w :=
    if negb (PyStr.truthy needle) then w
    else
      let root := rootIndex w in
      snd (_expand_matching_under root needle 4000 w) in
  tree_setUpdatesEnabled true w.

Definition _apply_name_filter (w : MainWindow) : MainWindow :=
  let text := PyStr.lower (PyStr.strip (search_text w)) in
  _filter_tree text w.

(** [search.setText(s)]: the line edit emits [textChanged], which line 84
    connects to [_apply_name_filter], when the text really changes. *)
Definition search_setText (s : string) (w : MainWindow) : MainWindow :=
  if String.eqb s (search_text w) then w
  else _apply_name_filter (set_search_text s w).

(** *** Choosing the root *)

Definition set_root (folder : string) (w : MainWindow) : MainWindow :=
  let folder := abspath os folder in
  if negb (isdir os folder) then
    QMessageBox_warning "Not a folder"
      ("That path is not a directory:" ++ nl ++ folder) w
  else
    let root_index := index_of_path m folder in
    let w := tree_setRootIndex root_index w in
    let w := _set_status_root (Path_str os folder) w in
    search_setText EmptyString w.

Definition current_root_path (w : MainWindow) : string :=
  let root_idx := rootIndex w in
  if isValid root_idx then filePath m root_idx else getcwd os.

(** [choose_folder], given what the directory picker returned (the empty
    string when it was cancelled). *)
Definition choose_folder (chosen : string) (w : MainWindow) : MainWindow :=
  if negb (PyStr.truthy chosen) then w else set_root chosen w.

(** *** Selection, clipboard, file manager *)

(** The view has a selection model once [setModel] has run, so only the
    list of selected rows decides. *)
Definition selected_index (w : MainWindow) : option QModelIndex :=
  match selectedRows w with
  | [] => None
  | idx :: _ => Some idx
  end.

Definition selected_path (w : MainWindow) : option string :=
  match selected_index w with
  | None => None
  | Some idx => Some (filePath m idx)
  end.

(** [if not path] holds for [None] and for the empty string: both return
    at once. *)
Definition copy_selected_path (w : MainWindow) : MainWindow :=
  match selected_path w with
  | None => w
  | Some path =>
      if negb (PyStr.truthy path) then w
      else
        let w := clipboard_setText path w in
        showMessage ("Copied: " ++ path) 2500 w
  end.

Definition open_in_explorer (w : MainWindow) : MainWindow :=
  match selected_path w with
  | None => w
  | Some path =>
      if negb (PyStr.truthy path) then w
      else if isdir os path then os_startfile path w
      else os_startfile (dirname os path) w
  end.

(** *** Pattern filter *)

Definition clear_pattern_filter (w : MainWindow) : MainWindow :=
  let w := model_setNameFilters [] w in
  let w := model_setNameFilterDisables true w in
  showMessage "File pattern filter cleared" 2500 w.

(** [filter_by_patterns], given how the dialog was closed and the text of
    its pattern input. *)
Definition filter_by_patterns (accepted : bool) (text : string)
    (w : MainWindow) : MainWindow :=
  if negb accepted then w
  else
    let pats := patterns text in
    match pats with
    | [] => clear_pattern_filter w
    | _ :: _ =>
        let w := model_setNameFilters pats w in
        let w := model_setNameFilterDisables false w in
        showMessage ("Filter: " ++ PyStr.join ";" pats) 4000 w
    end.

(** *** What the tree view shows

    A row is on display (scrolling apart) when it exists in the model and
    its parent is the view's root, or a directory that is expanded and
    itself on display. *)
Fixpoint visible (w : MainWindow) (idx : QModelIndex) : bool :=
  match idx with
  | [] => false
  | r :: p =>
      (r <? rowCount m p)%nat &&
      (if decide (p = rootIndex w) then true
       else isDir m p && bool_decide (p ∈ expanded w) && visible w p)
  end.

End Handlers.

(** ** A small file system to run the handlers on *)

Module Demo.

#[local] Unset Elimination Schemes.
Inductive fsnode := FsNode (name : string) (dir : bool) (children : list fsnode).

#[local] Set Elimination Schemes.

Definition node_name (n : fsnode) := let 'FsNode s _ _ := n in s.
Definition node_dir (n : fsnode) := let 'FsNode _ d _ := n in d.
Definition node_children (n : fsnode) := let 'FsNode _ _ c := n in c.

(** The node reached through [rows] (top-level row first), with its path. *)
Fixpoint descend (forest : list fsnode) (rows : list nat) (prefix : string)
    : option (string * fsnode) :=
  match rows with
  | [] => None
  | r :: rest =>
      match nth_error forest r with
      | None => None
      | Some nd =>
          let path := prefix ++ node_name nd in
          match rest with
          | [] => Some (path, nd)
          | _ :: _ => descend (node_children nd) rest (path ++ "/")
          end
      end
  end.

Definition node_at (forest : list fsnode) (idx : QModelIndex) :=
  descend forest (rev idx) EmptyString.

Definition rows_at (forest : list fsnode) (idx : QModelIndex) : nat :=
  match idx with
  | [] => length forest
  | _ :: _ =>
      match node_at forest idx with
      | Some (_, nd) => length (node_children nd)
      | None => 0
      end
  end.

(** Every index at most [depth] levels below [idx]. *)
Fixpoint indices_under (forest : list fsnode) (depth : nat)
    (idx : QModelIndex) : list QModelIndex :=
  match depth with
  | O => []
  | S d =>
      let kids := map (fun r => r :: idx) (seq 0 (rows_at forest idx)) in
      kids ++ flat_map (indices_under forest d) kids
  end.

Definition path_of (forest : list fsnode) (idx : QModelIndex) : string :=
  match node_at forest idx with
  | Some (p, _) => p
  | None => EmptyString
  end.

Definition find_path (forest : list fsnode) (path : string) : QModelIndex :=
  match
    List.find (fun idx => String.eqb (path_of forest idx) path)
      (indices_under forest 8 [])
  with
  | Some idx => idx
  | None => []
  end.

Definition model_of (forest : list fsnode) : QFileSystemModel :=
  {| fileName idx :=
       match node_at forest idx with
       | Some (_, nd) => node_name nd
       | None => EmptyString
       end;
     isDir idx :=
       match node_at forest idx with
       | Some (_, nd) => node_dir nd
       | None => false
       end;
     rowCount := rows_at forest;
     filePath := path_of forest;
     index_of_path := find_path forest |}.

(** The text before the last slash of [s], when there is a slash. *)
Fixpoint before_last_slash (s : string) : option string :=
  match s with
  | EmptyString => None
  | String c s' =>
      match before_last_slash s' with
      | Some d => Some (String c d)
      | None => if Ascii.eqb c "/" then Some EmptyString else None
      end
  end.

(** Paths of the demo are taken as absolute when they start with the drive,
    and as relative to the working directory otherwise. *)
Definition os_of (forest : list fsnode) (cwd : string) : OsPath :=
  {| getcwd := cwd;
     abspath p := if String.prefix "C:" p then p else cwd ++ "/" ++ p;
     isdir p :=
       match node_at forest (find_path forest p) with
       | Some (_, nd) => node_dir nd
       | None => false
       end;
     dirname p :=
       match before_last_slash p with Some d => d | None => EmptyString end;
     Path_str p := p |}.

Definition disk : list fsnode :=
  [ FsNode "C:" true
      [ FsNode "proj" true
          [ FsNode "src" true
              [ FsNode "Main.py" false []; FsNode "util.py" false [] ];
            FsNode "README.md" false [];
            FsNode "notes.txt" false [] ] ] ].

Definition model : QFileSystemModel := model_of disk.
Definition os : OsPath := os_of disk "C:/proj".

(** The window at start-up, in [C:/proj]. *)
Definition start : MainWindow := MainWindow_init os model.

(** The window after the user typed [text] in the search box. *)
Definition typed (text : string) (w : MainWindow) : MainWindow :=
  search_setText model text w.

(** The window with the row [idx] selected. *)
Definition select (idx : QModelIndex) (w : MainWindow) : MainWindow :=
  mkMainWindow (rootIndex w) (expanded w) (updatesEnabled w) [idx]
    (search_text w) (status_message w) (status_timeout w) (clipboard w)
    (nameFilters w) (nameFilterDisables w) (warnings w) (startfile_calls w)
    (popped w).

End Demo.


(** ** Notions used in the statements *)

(** The test of lines 201-202 on the node [idx]. *)
Definition name_matches (m : QFileSystemModel) (needle : string)
    (idx : QModelIndex) : bool :=
  PyStr.contains needle (PyStr.lower (fileName m idx)).

(** [a] is the node [v] or one of its ancestors. *)
Definition at_or_above (a v : QModelIndex) : Prop :=
  isValid a = true ∧ a `suffix_of` v.

(** Among [visited] there is a valid node matching [needle] at or below
    [a]. *)
Definition leads_to_match (m : QFileSystemModel) (needle : string)
    (visited : list QModelIndex) (a : QModelIndex) : Prop :=
  ∃ v, v ∈ visited ∧ isValid v = true ∧ name_matches m needle v = true
       ∧ at_or_above a v.

(** The search string [S] is, case apart, a substring of the name of
    [idx]. *)
Definition matches_search (m : QFileSystemModel) (S : string)
    (idx : QModelIndex) : bool :=
  PyStr.contains (PyStr.lower S) (PyStr.lower (fileName m idx)).

(** After the filter has run on the search text of [w], every row on
    display matches the text or is an ancestor of a node that does. *)
Definition visible_rows_match (m : QFileSystemModel) (w : MainWindow) : Prop :=
  ∀ idx, visible m (_apply_name_filter m w) idx = true →
    matches_search m (search_text w) idx = true
    ∨ ∃ d, d ≠ idx ∧ idx `suffix_of` d
           ∧ matches_search m (search_text w) d = true.

(** What the search walk never writes: everything but [expanded],
    [updatesEnabled] and the ghost [popped]. *)
Definition outside_tree (w : MainWindow) :=
  (rootIndex w, selectedRows w, search_text w, status_message w,
   status_timeout w, clipboard w, nameFilters w, nameFilterDisables w,
   warnings w, startfile_calls w).

(** Two models with the same shape whose names differ in case only. *)
Definition same_up_to_case (m1 m2 : QFileSystemModel) : Prop :=
  (∀ idx, PyStr.lower (fileName m1 idx) = PyStr.lower (fileName m2 idx))
  ∧ (∀ idx, isDir m1 idx = isDir m2 idx)
  ∧ (∀ idx, rowCount m1 idx = rowCount m2 idx).

(** ** The rest of the window's wiring *)

Section Wiring.

Variable os : OsPath.
Variable m : QFileSystemModel.

(** [tree.setCurrentIndex(idx)]: the view keeps its default selection
    mode (one row at a time), so the row of [idx] becomes the selection. *)
Definition tree_setCurrentIndex (idx : QModelIndex) (w : MainWindow) :=
  mkMainWindow (rootIndex w) (expanded w) (updatesEnabled w) [idx]
    (search_text w) (status_message w) (status_timeout w) (clipboard w)
    (nameFilters w) (nameFilterDisables w) (warnings w) (startfile_calls w)
    (popped w).

(** The "Reset search" button (line 90). *)
Definition reset_search (w : MainWindow) : MainWindow :=
  search_setText m EmptyString w.

(** What the user does with the context menu: dismiss it, or trigger one of
    its three actions (the folder action with what the picker returns). *)
Inductive menu_choice :=
| PickNothing
| PickCopyPath
| PickReveal
| PickChooseFolder (chosen : string).

(** [_open_context_menu], given the index under the cursor
    ([tree.indexAt(pos)]) and what the user then picks. *)
Definition _open_context_menu (idx : QModelIndex) (pick : menu_choice)
    (w : MainWindow) : MainWindow :=
  let w := if isValid idx then tree_setCurrentIndex idx w else w in
  match pick with
  | PickNothing => w
  | PickCopyPath => copy_selected_path m w
  | PickReveal => open_in_explorer os m w
  | PickChooseFolder chosen => choose_folder os m chosen w
  end.

(** What can happen to the window: the signals wired in [__init__] and
    [_create_actions], and the user's own clicks in the tree. *)
Inductive event :=
| ChooseFolder (chosen : string)
| SearchEdited (text : string)
| ResetSearch
| CopyPath
| OpenInExplorer
| FilterByPatterns (accepted : bool) (text : string)
| ClearPatternFilter
| ContextMenu (idx : QModelIndex) (pick : menu_choice)
| RowsSelected (rows : list QModelIndex)
| RowExpanded (idx : QModelIndex)
| RowCollapsed (idx : QModelIndex).

Definition handle (ev : event) (w : MainWindow) : MainWindow :=
  match ev with
  | ChooseFolder chosen => choose_folder os m chosen w
  | SearchEdited text => search_setText m text w
  | ResetSearch => reset_search w
  | CopyPath => copy_selected_path m w
  | OpenInExplorer => open_in_explorer os m w
  | FilterByPatterns accepted text => filter_by_patterns accepted text w
  | ClearPatternFilter => clear_pattern_filter w
  | ContextMenu idx pick => _open_context_menu idx pick w
  | RowsSelected rows =>
      mkMainWindow (rootIndex w) (expanded w) (updatesEnabled w) rows
        (search_text w) (status_message w) (status_timeout w) (clipboard w)
        (nameFilters w) (nameFilterDisables w) (warnings w)
        (startfile_calls w) (popped w)
  | RowExpanded idx => tree_expand idx w
  | RowCollapsed idx => set_expanded (expanded w ∖ {[ idx ]}) w
  end.

(** The window after a sequence of events, oldest first. *)
Definition run (evs : list event) (w : MainWindow) : MainWindow :=
  fold_left (λ w ev, handle ev w) evs w.

End Wiring.

(** ** More notions used in the statements *)

(** [n] can be reached from [start] by going down through valid
    directories, along rows the model has. *)
Inductive reachable (m : QFileSystemModel) (start : QModelIndex)
    : QModelIndex → Prop :=
| reach_start : reachable m start start
| reach_child (p : QModelIndex) (r : nat) :
    reachable m start p → isValid p = true → isDir m p = true →
    (r < rowCount m p)%nat → reachable m start (r :: p).

(** No entry of the list is at or above another one. *)
Fixpoint antichain (l : list QModelIndex) : Prop :=
  match l with
  | [] => True
  | x :: l' =>
      (∀ y, y ∈ l' → ¬ x `suffix_of` y ∧ ¬ y `suffix_of` x) ∧ antichain l'
  end.

(** The children of [idx], in row order. *)
Definition children_of (m : QFileSystemModel) (idx : QModelIndex)
    : list QModelIndex :=
  map (λ r, r :: idx) (seq 0 (rowCount m idx)).

(** The subtree of [idx] listed parent first, rows in order, down to
    [depth] levels. *)
Fixpoint preorder (m : QFileSystemModel) (depth : nat) (idx : QModelIndex)
    : list QModelIndex :=
  idx ::
  match depth with
  | O => []
  | S d =>
      if isValid idx && isDir m idx
      then flat_map (preorder m d) (children_of m idx)
      else []
  end.

(** The subtree of [idx] is at most [depth] levels deep. *)
Fixpoint shallow (m : QFileSystemModel) (depth : nat) (idx : QModelIndex)
    : bool :=
  negb (isValid idx && isDir m idx)
  || (rowCount m idx =? 0)%nat
  || match depth with
     | O => false
     | S d => forallb (shallow m d) (children_of m idx)
     end.

(** A pattern as [patterns] returns them: not empty, no blank at either
    end, no semicolon. *)
Definition no_semicolon (s : string) : Prop :=
  ∀ c, In c (list_ascii_of_string s) → c ≠ ";"%char.

Definition tidy_pattern (p : string) : Prop :=
  p ≠ EmptyString ∧ PyStr.strip p = p ∧ no_semicolon p.

(** A text that does not begin with a blank. *)
Definition starts_clean (s : string) : Prop :=
  match s with
  | EmptyString => True
  | String c _ => PyStr.is_space c = false
  end.

(** The status bar holds a root message to stay, or one of the three
    passing messages with its own timeout. *)
Definition status_ok (w : MainWindow) : Prop :=
  (status_timeout w = 0%Z ∧ String.prefix "Root: " (status_message w) = true)
  ∨ (status_timeout w = 2500%Z
     ∧ (String.prefix "Copied: " (status_message w) = true
        ∨ status_message w = "File pattern filter cleared"%string))
  ∨ (status_timeout w = 4000%Z
     ∧ String.prefix "Filter: " (status_message w) = true).

(** What holds of the window whatever has happened to it: updates are on,
    the filter-disables switch is on exactly when no name filter is set,
    every name filter is tidy, every warning shown is titled "Not a folder",
    and the status bar is in one of its four forms. *)
Definition window_ok (w : MainWindow) : Prop :=
  updatesEnabled w = true
  ∧ (nameFilters w = [] ↔ nameFilterDisables w = true)
  ∧ Forall tidy_pattern (nameFilters w)
  ∧ Forall (λ d, fst d = "Not a folder"%string) (warnings w)
  ∧ status_ok w.

(** The events that can copy, reveal, choose a folder, change the pattern
    filter, or change the search text. *)
Definition may_copy (ev : event) : bool :=
  match ev with
  | CopyPath | ContextMenu _ PickCopyPath => true
  | _ => false
  end.

Definition may_reveal (ev : event) : bool :=
  match ev with
  | OpenInExplorer | ContextMenu _ PickReveal => true
  | _ => false
  end.

Definition may_choose (ev : event) : bool :=
  match ev with
  | ChooseFolder _ | ContextMenu _ (PickChooseFolder _) => true
  | _ => false
  end.

Definition may_filter (ev : event) : bool :=
  match ev with
  | FilterByPatterns _ _ | ClearPatternFilter => true
  | _ => false
  end.

Definition may_search (ev : event) : bool :=
  match ev with
  | SearchEdited _ | ResetSearch => true
  | _ => may_choose ev
  end.

(** * Properties *)

(** ** Text *)

Lemma truthy_false (s : string) : PyStr.truthy s = false ↔ s = EmptyString.
Proof. destruct s; simpl; split; congruence. Qed.

Lemma truthy_true (s : string) : PyStr.truthy s = true ↔ s ≠ EmptyString.
Proof. destruct s; simpl; split; congruence. Qed.

Lemma lstrip_all_space (s : string) :
  PyStr.all_space s = true → PyStr.lstrip s = EmptyString.
Proof.
  induction s as [|c s IH]; simpl; [done|].
  intros [Hc Hs]%andb_prop. rewrite Hc. auto.
Qed.

Lemma rstrip_all_space (s : string) :
  PyStr.all_space s = true → PyStr.rstrip s = EmptyString.
Proof.
  induction s as [|c s IH]; simpl; [done|].
  intros [Hc Hs]%andb_prop. rewrite (IH Hs), Hc. done.
Qed.

Lemma strip_all_space (s : string) :
  PyStr.all_space s = true → PyStr.strip s = EmptyString.
Proof. intros H. unfold PyStr.strip. by rewrite lstrip_all_space. Qed.

Lemma lstrip_app_space (ws s : string) :
  PyStr.all_space ws = true → PyStr.lstrip (ws ++ s) = PyStr.lstrip s.
Proof.
  induction ws as [|c ws IH]; simpl; [done|].
  intros [Hc Hs]%andb_prop. rewrite Hc. auto.
Qed.

Lemma rstrip_app_space (s ws : string) :
  PyStr.all_space ws = true → PyStr.rstrip (s ++ ws) = PyStr.rstrip s.
Proof.
  intros Hws. induction s as [|c s IH]; simpl.
  - by apply rstrip_all_space.
  - by rewrite IH.
Qed.

Lemma strip_app_space (s ws : string) :
  PyStr.all_space ws = true → PyStr.strip (s ++ ws) = PyStr.strip s.
Proof.
  intros Hws. unfold PyStr.strip. induction s as [|c s IH]; simpl.
  - rewrite lstrip_all_space by done. done.
  - destruct (PyStr.is_space c); [done|].
    change (String c (s ++ ws)) with (String c s ++ ws).
    by apply rstrip_app_space.
Qed.

(** Padding a text with white space does not change what [strip] gives. *)
Lemma strip_padded (ws1 t ws2 : string) :
  PyStr.all_space ws1 = true → PyStr.all_space ws2 = true →
  PyStr.strip (ws1 ++ t ++ ws2) = PyStr.strip t.
Proof.
  intros H1 H2. unfold PyStr.strip. rewrite lstrip_app_space by done.
  by apply strip_app_space.
Qed.

Lemma is_space_lower_char (c : ascii) :
  PyStr.is_space (PyStr.lower_char c) = PyStr.is_space c.
Proof.
  destruct c as [[] [] [] [] [] [] [] []]; vm_compute; reflexivity.
Qed.

Lemma lower_lstrip (s : string) :
  PyStr.lower (PyStr.lstrip s) = PyStr.lstrip (PyStr.lower s).
Proof.
  induction s as [|c s IH]; simpl; [done|].
  rewrite is_space_lower_char. by destruct (PyStr.is_space c).
Qed.

Lemma lower_rstrip (s : string) :
  PyStr.lower (PyStr.rstrip s) = PyStr.rstrip (PyStr.lower s).
Proof.
  induction s as [|c s IH]; simpl; [done|].
  rewrite <- IH, is_space_lower_char.
  destruct (PyStr.rstrip s); simpl; [|done].
  by destruct (PyStr.is_space c).
Qed.

(** Stripping and lowering commute: white space has no case. *)
Lemma lower_strip (s : string) :
  PyStr.lower (PyStr.strip s) = PyStr.strip (PyStr.lower s).
Proof. unfold PyStr.strip. by rewrite lower_rstrip, lower_lstrip. Qed.

Lemma lower_char_idemp (c : ascii) :
  PyStr.lower_char (PyStr.lower_char c) = PyStr.lower_char c.
Proof.
  destruct c as [[] [] [] [] [] [] [] []]; vm_compute; reflexivity.
Qed.

Lemma lower_idemp (s : string) : PyStr.lower (PyStr.lower s) = PyStr.lower s.
Proof.
  induction s as [|c s IH]; simpl; [done|]. by rewrite lower_char_idemp, IH.
Qed.

(** ** The search walk *)

Local Open Scope list_scope.

Section WalkFacts.

Variable m : QFileSystemModel.

Lemma at_or_above_nil (a : QModelIndex) : ¬ at_or_above a [].
Proof.
  intros [Hv Hs]. apply suffix_nil_inv in Hs. subst a. discriminate.
Qed.

Lemma at_or_above_cons (a : QModelIndex) (r : nat) (p : QModelIndex) :
  at_or_above a (r :: p) ↔ a = r :: p ∨ at_or_above a p.
Proof.
  unfold at_or_above. split.
  - intros [Hv Hs]. destruct a as [|x a]; [done|].
    apply suffix_cons_inv in Hs as [->|Hs]; auto.
  - intros [->|[Hv Hs]]; [done|]. split; [done|]. by apply suffix_cons_r.
Qed.

Lemma expand_with_parents_frame (p : QModelIndex) (w : MainWindow) :
  outside_tree (expand_with_parents p w) = outside_tree w
  ∧ updatesEnabled (expand_with_parents p w) = updatesEnabled w
  ∧ popped (expand_with_parents p w) = popped w.
Proof.
  revert w. induction p as [|r p IH]; intros w; simpl; [done|].
  destruct (IH (tree_expand (r :: p) w)) as (-> & -> & ->). done.
Qed.

(** Lines 204-207 expand the node and its ancestors, and nothing else. *)
Lemma expand_with_parents_expanded (p : QModelIndex) (w : MainWindow)
    (a : QModelIndex) :
  a ∈ expanded (expand_with_parents p w) ↔ a ∈ expanded w ∨ at_or_above a p.
Proof.
  revert w. induction p as [|r p IH]; intros w; simpl.
  - pose proof (at_or_above_nil a). tauto.
  - rewrite IH, at_or_above_cons. simpl.
    rewrite elem_of_union, elem_of_singleton. tauto.
Qed.

(** One turn of the loop: what it logs, counts and expands. *)
Lemma walk_iter_spec (needle : string) (st : walk_state)
    (idx : QModelIndex) (stk : list QModelIndex) :
  ws_stack st = idx :: stk →
  let st1 := walk_iter m needle st in
  popped (ws_win st1) = popped (ws_win st) ++ [idx]
  ∧ ws_remaining st1 = (ws_remaining st - 1)%Z
  ∧ outside_tree (ws_win st1) = outside_tree (ws_win st)
  ∧ updatesEnabled (ws_win st1) = updatesEnabled (ws_win st)
  ∧ ∀ a, a ∈ expanded (ws_win st1) ↔
         a ∈ expanded (ws_win st)
         ∨ (isValid idx = true ∧ name_matches m needle idx = true
            ∧ at_or_above a idx).
Proof.
  intros Hstk. unfold walk_iter. rewrite Hstk.
  destruct (isValid idx) eqn:Hv; simpl.
  - unfold name_matches.
    destruct (PyStr.contains needle (PyStr.lower (fileName m idx))) eqn:Hc.
    + destruct (expand_with_parents_frame idx (note_pop idx (ws_win st)))
        as (Ho & Hu & Hp).
      repeat split; try done.
      * intros Ha. apply expand_with_parents_expanded in Ha. simpl in Ha. tauto.
      * intros Ha. apply expand_with_parents_expanded. simpl. tauto.
    + repeat split; try done; [tauto|]. intros [?|(_ & ? & _)]; done.
  - repeat split; try done; [tauto|]. intros [?|(? & _)]; done.
Qed.

(** The loop as a whole: the nodes it took off the stack, how many, and
    what it expanded. *)
Lemma walk_loop_spec (fuel : nat) (needle : string) (st : walk_state) :
  let st' := walk_loop m fuel needle st in
  ∃ visited,
    popped (ws_win st') = popped (ws_win st) ++ visited
    ∧ Z.of_nat (length visited) = (ws_remaining st - ws_remaining st')%Z
    ∧ (length visited ≤ fuel)%nat
    ∧ (fuel ≠ 0%nat →
       nonempty (ws_stack st) && (0 <? ws_remaining st)%Z = true →
       head visited = head (ws_stack st))
    ∧ outside_tree (ws_win st') = outside_tree (ws_win st)
    ∧ updatesEnabled (ws_win st') = updatesEnabled (ws_win st)
    ∧ ∀ a, a ∈ expanded (ws_win st') ↔
           a ∈ expanded (ws_win st) ∨ leads_to_match m needle visited a.
Proof.
  revert st. induction fuel as [|fuel IH]; intros st; simpl.
  - exists []. rewrite app_nil_r. simpl. repeat split; try done; try lia.
    + tauto.
    + intros [?|(v & Hv & _)]; [done|]. by apply elem_of_nil in Hv.
  - destruct (nonempty (ws_stack st) && (0 <? ws_remaining st)%Z) eqn:Hc.
    + destruct (ws_stack st) as [|idx stk] eqn:Hstk; [done|].
      destruct (walk_iter_spec needle st idx stk Hstk)
        as (Hp1 & Hr1 & Ho1 & Hu1 & He1).
      destruct (IH (walk_iter m needle st))
        as (visited & Hp & Hr & Hl & _ & Ho & Hu & He).
      exists (idx :: visited). simpl.
      rewrite Hp, Hp1, <- app_assoc, Ho, Ho1, Hu, Hu1. simpl.
      repeat split; try done; try lia.
      * intros Ha. apply He in Ha as [Ha|(v & Hv & Hvv & Hm & Hab)].
        -- apply He1 in Ha as [Ha|(Hvv & Hm & Hab)]; [by left|].
           right. exists idx. split; [apply elem_of_cons; by left|done].
        -- right. exists v. split; [apply elem_of_cons; by right|done].
      * intros Ha. apply He. destruct Ha as [Ha|(v & Hv & Hvv & Hm & Hab)].
        -- left. apply He1. by left.
        -- apply elem_of_cons in Hv as [->|Hv].
           ++ left. apply He1. right. done.
           ++ right. exists v. done.
    + exists []. rewrite app_nil_r. simpl. repeat split; try done; try lia.
      * tauto.
      * intros [?|(v & Hv & _)]; [done|]. by apply elem_of_nil in Hv.
Qed.

(** The walk as [_expand_matching_under] starts it. *)
Lemma walk_from_spec (par : QModelIndex) (needle : string) (max_nodes : Z)
    (w : MainWindow) :
  let st' := walk_from m par needle max_nodes w in
  ∃ visited,
    popped (ws_win st') = popped w ++ visited
    ∧ Z.of_nat (length visited) = (max_nodes - ws_remaining st')%Z
    ∧ (length visited ≤ Z.to_nat max_nodes)%nat
    ∧ ((0 < max_nodes)%Z → head visited = Some par)
    ∧ outside_tree (ws_win st') = outside_tree w
    ∧ updatesEnabled (ws_win st') = updatesEnabled w
    ∧ ∀ a, a ∈ expanded (ws_win st') ↔
           a ∈ expanded w ∨ leads_to_match m needle visited a.
Proof.
  unfold walk_from.
  destruct (walk_loop_spec (Z.to_nat max_nodes) needle
              (mkWalk [par] max_nodes w))
    as (visited & Hp & Hr & Hl & Hh & Ho & Hu & He).
  exists visited. simpl in *. repeat split; try done.
  - intros Hpos. apply Hh; [lia|]. by apply Z.ltb_lt.
  - by apply He.
  - by apply He.
Qed.

(** With [remaining] turns of fuel the loop runs until its own test
    fails: the fuel never cuts it short. *)
Lemma walk_loop_exits (fuel : nat) (needle : string) (st : walk_state) :
  fuel = Z.to_nat (ws_remaining st) →
  let st' := walk_loop m fuel needle st in
  nonempty (ws_stack st') && (0 <? ws_remaining st')%Z = false.
Proof.
  revert st. induction fuel as [|fuel IH]; intros st Hf; simpl.
  - apply andb_false_iff. right. apply Z.ltb_ge. lia.
  - destruct (nonempty (ws_stack st) && (0 <? ws_remaining st)%Z) eqn:Hc;
      [|done].
    apply IH. destruct (ws_stack st) as [|idx stk] eqn:Hstk; [done|].
    destruct (walk_iter_spec needle st idx stk Hstk) as (_ & -> & _). lia.
Qed.

End WalkFacts.

(** ** The filter *)

Section FilterFacts.

Variable m : QFileSystemModel.

(** [_filter_tree] on an empty needle: collapse, and no more. *)
Lemma filter_tree_empty (w : MainWindow) :
  _filter_tree m EmptyString w
  = tree_setUpdatesEnabled true (tree_collapseAll w).
Proof. reflexivity. Qed.

(** [_filter_tree] on a needle that is not empty: the walk starts at the
    root of the view, on a tree with nothing expanded. *)
Lemma filter_tree_walks (needle : string) (w : MainWindow) :
  needle ≠ EmptyString →
  let w' := _filter_tree m needle w in
  ∃ rest,
    popped w' = popped w ++ rootIndex w :: rest
    ∧ (length rest < 4000)%nat
    ∧ outside_tree w' = outside_tree w
    ∧ updatesEnabled w' = true
    ∧ ∀ a, a ∈ expanded w' ↔
           leads_to_match m needle (rootIndex w :: rest) a.
Proof.
  intros Hne. apply truthy_true in Hne. unfold _filter_tree. rewrite Hne.
  simpl negb. cbv iota. unfold _expand_matching_under. cbv zeta. simpl snd.
  set (w0 := tree_collapseAll (tree_setUpdatesEnabled false w)).
  destruct (walk_from_spec m (rootIndex w0) needle 4000 w0)
    as (visited & Hp & _ & Hl & Hh & Ho & _ & He).
  destruct visited as [|v rest]; [by specialize (Hh eq_refl)|].
  specialize (Hh eq_refl). simpl in Hh. injection Hh as ->.
  assert (length rest < 4000)%nat as Hlen by (cbn [length] in Hl; lia).
  clear Hl. exists rest. simpl in *. repeat split; try done.
  - intros Ha. apply He in Ha as [Ha|Ha]; [|done].
    by apply not_elem_of_empty in Ha.
  - intros Ha. apply He. by right.
Qed.

(** Whatever the needle, [_filter_tree] leaves the rest of the window as
    it was and switches updates back on. *)
Lemma filter_tree_frame (needle : string) (w : MainWindow) :
  outside_tree (_filter_tree m needle w) = outside_tree w
  ∧ updatesEnabled (_filter_tree m needle w) = true.
Proof.
  destruct (decide (needle = EmptyString)) as [->|Hne]; [done|].
  destruct (filter_tree_walks needle w Hne) as (rest & _ & _ & Ho & Hu & _).
  done.
Qed.

End FilterFacts.

(** ** Choosing the root *)

(** C1. For every path [P] whose absolute form is not a directory,
    [set_root] shows one warning dialog, titled "Not a folder", whose text
    names [P] in the absolute form line 166 gives it, and changes nothing
    else: the root of the view, the status bar and the search text are what
    they were, and so is every other part of the window. *)
Theorem set_root_not_a_directory (os : OsPath) (m : QFileSystemModel)
    (P : string) (w : MainWindow) :
  isdir os (abspath os P) = false →
  let w' := set_root os m P w in
  warnings w' =
    warnings w ++
      [("Not a folder"%string,
        ("That path is not a directory:" ++ nl ++ abspath os P)%string)]
  ∧ rootIndex w' = rootIndex w
  ∧ status_message w' = status_message w
  ∧ status_timeout w' = status_timeout w
  ∧ search_text w' = search_text w
  ∧ expanded w' = expanded w
  ∧ updatesEnabled w' = updatesEnabled w
  ∧ selectedRows w' = selectedRows w
  ∧ clipboard w' = clipboard w
  ∧ nameFilters w' = nameFilters w
  ∧ nameFilterDisables w' = nameFilterDisables w
  ∧ startfile_calls w' = startfile_calls w
  ∧ popped w' = popped w.
Proof.
  intros Hnd. unfold set_root. cbv zeta. rewrite Hnd. simpl.
  repeat split.
Qed.

Lemma set_root_not_a_directory_witness :
  isdir Demo.os (abspath Demo.os "README.md") = false
  ∧ warnings (set_root Demo.os Demo.model "README.md" Demo.start) =
      [("Not a folder"%string,
        ("That path is not a directory:" ++ nl ++ "C:/proj/README.md")%string)]
  ∧ rootIndex (set_root Demo.os Demo.model "README.md" Demo.start)
    = rootIndex Demo.start.
Proof.
  split; [vm_compute; reflexivity|].
  pose proof (set_root_not_a_directory Demo.os Demo.model "README.md"
                Demo.start ltac:(vm_compute; reflexivity)) as H.
  cbv zeta in H. destruct H as (Hw & Hr & _). split; [exact Hw|exact Hr].
Defined.

(** The search box after [search_setText]: the text asked for, and a window
    otherwise unchanged outside the tree. *)
Lemma search_setText_frame (m : QFileSystemModel) (s : string)
    (w : MainWindow) :
  search_text (search_setText m s w) = s
  ∧ rootIndex (search_setText m s w) = rootIndex w
  ∧ status_message (search_setText m s w) = status_message w
  ∧ status_timeout (search_setText m s w) = status_timeout w
  ∧ warnings (search_setText m s w) = warnings w.
Proof.
  unfold search_setText. destruct (String.eqb s (search_text w)) eqn:He.
  - apply String.eqb_eq in He. by subst s.
  - unfold _apply_name_filter.
    destruct (filter_tree_frame m
                (PyStr.lower (PyStr.strip (search_text (set_search_text s w))))
                (set_search_text s w)) as [Ho _].
    unfold outside_tree in Ho. simpl in Ho. by simplify_eq.
Qed.

(** C4. For every path [P] whose absolute form is a directory, [set_root]
    makes the model's index of that absolute form the root of the view,
    leaves the search text empty, and puts "Root: " followed by the new
    root path in the status bar, to stay (timeout 0). *)
Theorem set_root_directory (os : OsPath) (m : QFileSystemModel)
    (P : string) (w : MainWindow) :
  isdir os (abspath os P) = true →
  let w' := set_root os m P w in
  rootIndex w' = index_of_path m (abspath os P)
  ∧ search_text w' = EmptyString
  ∧ status_message w' = ("Root: " ++ Path_str os (abspath os P))%string
  ∧ status_timeout w' = 0%Z
  ∧ warnings w' = warnings w.
Proof.
  intros Hd. unfold set_root. cbv zeta. rewrite Hd. simpl negb. cbv iota.
  match goal with |- context [search_setText m ?s ?w0] =>
    destruct (search_setText_frame m s w0) as (Ht & Hr & Hs & Hto & Hw) end.
  rewrite Ht, Hr, Hs, Hto, Hw. done.
Qed.

Lemma set_root_directory_witness :
  isdir Demo.os (abspath Demo.os "src") = true
  ∧ rootIndex (set_root Demo.os Demo.model "src"
                 (Demo.typed "main" Demo.start)) = [0; 0; 0]%nat
  ∧ search_text (set_root Demo.os Demo.model "src"
                   (Demo.typed "main" Demo.start)) = EmptyString
  ∧ status_message (set_root Demo.os Demo.model "src"
                      (Demo.typed "main" Demo.start)) = "Root: C:/proj/src"%string.
Proof.
  split; [vm_compute; reflexivity|].
  pose proof (set_root_directory Demo.os Demo.model "src"
                (Demo.typed "main" Demo.start)
                ltac:(vm_compute; reflexivity)) as H.
  cbv zeta in H. destruct H as (Hr & Ht & Hs & _).
  split; [exact Hr|]. split; [exact Ht|exact Hs].
Defined.

(** ** Selection, clipboard, file manager *)

Lemma selected_path_None (m : QFileSystemModel) (w : MainWindow) :
  selected_path m w = None ↔ selectedRows w = [].
Proof.
  unfold selected_path, selected_index. destruct (selectedRows w); split; done.
Qed.

(** C5. When no row is selected ([selected_path] gives [None]),
    [copy_selected_path] returns the window as it was: clipboard and status
    bar included.  When rows are selected, the path of the first of them
    (not empty, as the paths of the model's rows are) goes to the clipboard
    and the status bar shows "Copied: " and that path for 2500 ms; nothing
    else changes. *)
Theorem copy_selected_path_spec (m : QFileSystemModel) (w : MainWindow) :
  (selected_path m w = None → copy_selected_path m w = w)
  ∧ (∀ idx others,
       selectedRows w = idx :: others →
       filePath m idx ≠ EmptyString →
       let w' := copy_selected_path m w in
       clipboard w' = filePath m idx
       ∧ status_message w' = ("Copied: " ++ filePath m idx)%string
       ∧ status_timeout w' = 2500%Z
       ∧ w' = showMessage ("Copied: " ++ filePath m idx) 2500
                (clipboard_setText (filePath m idx) w)).
Proof.
  split.
  - intros Hn. unfold copy_selected_path. by rewrite Hn.
  - intros idx others Hsel Hne. apply truthy_true in Hne.
    unfold copy_selected_path, selected_path, selected_index.
    rewrite Hsel, Hne. done.
Qed.

Lemma copy_selected_path_spec_witness :
  copy_selected_path Demo.model Demo.start = Demo.start
  ∧ clipboard (copy_selected_path Demo.model
                 (Demo.select [1; 0; 0]%nat Demo.start))
    = "C:/proj/README.md"%string
  ∧ status_message (copy_selected_path Demo.model
                      (Demo.select [1; 0; 0]%nat Demo.start))
    = "Copied: C:/proj/README.md"%string.
Proof.
  split.
  - apply (proj1 (copy_selected_path_spec Demo.model Demo.start)).
    reflexivity.
  - pose proof (proj2 (copy_selected_path_spec Demo.model
                         (Demo.select [1; 0; 0]%nat Demo.start))
                  [1; 0; 0]%nat [] eq_refl ltac:(vm_compute; discriminate))
      as H.
    cbv zeta in H. destruct H as (Hc & Hs & _). split; [exact Hc|exact Hs].
Defined.

(** What [open_in_explorer] does: nothing without a selection, one
    [os.startfile] on the path for a directory, and one on the directory
    holding it for anything else.  The file itself is never handed to the
    shell. *)
Lemma open_in_explorer_spec (os : OsPath) (m : QFileSystemModel)
    (w : MainWindow) :
  (selected_path m w = None → open_in_explorer os m w = w)
  ∧ (∀ path, selected_path m w = Some path → path ≠ EmptyString →
       open_in_explorer os m w =
         os_startfile (if isdir os path then path else dirname os path) w).
Proof.
  split.
  - intros Hn. unfold open_in_explorer. by rewrite Hn.
  - intros path Hp Hne. apply truthy_true in Hne.
    unfold open_in_explorer. rewrite Hp, Hne. simpl.
    by destruct (isdir os path).
Qed.

(** C8, on the code.  With [README.md] selected the shell is asked to open
    [C:/proj] and no more; with [notes.txt] selected it is asked exactly the
    same, so the file manager has nothing to position itself by. *)
Theorem open_in_explorer_file_not_positioned :
  startfile_calls
    (open_in_explorer Demo.os Demo.model
       (Demo.select [1; 0; 0]%nat Demo.start)) = ["C:/proj"%string]
  ∧ startfile_calls
      (open_in_explorer Demo.os Demo.model
         (Demo.select [2; 0; 0]%nat Demo.start)) = ["C:/proj"%string]
  ∧ selected_path Demo.model (Demo.select [1; 0; 0]%nat Demo.start)
    = Some "C:/proj/README.md"%string
  ∧ selected_path Demo.model (Demo.select [2; 0; 0]%nat Demo.start)
    = Some "C:/proj/notes.txt"%string
  ∧ startfile_calls
      (open_in_explorer Demo.os Demo.model
         (Demo.select [0; 0; 0]%nat Demo.start)) = ["C:/proj/src"%string].
Proof. repeat split; vm_compute; reflexivity. Qed.

(** ** Pattern filter *)

(** C9. [patterns] is: strip the text, split it at the semicolons, strip
    each piece, drop the empty pieces.  An empty or all-blank text gives no
    pattern, and [" *.py ; ;*.md"] gives [*.py] and [*.md]. *)
Theorem patterns_spec :
  (∀ text,
     patterns text =
       filter (λ p, p ≠ EmptyString)
         (map PyStr.strip (PyStr.split ";" (PyStr.strip text))))
  ∧ (∀ text, PyStr.all_space text = true → patterns text = [])
  ∧ patterns EmptyString = []
  ∧ patterns " *.py ; ;*.md" = ["*.py"%string; "*.md"%string].
Proof.
  split; [|split; [|split; reflexivity]].
  - intros text. unfold patterns. cbv zeta.
    destruct (PyStr.strip text) as [|c s] eqn:Hs.
    + reflexivity.
    + simpl negb. cbv iota. apply list_filter_iff. intros p.
      apply truthy_true.
  - intros text Hws. unfold patterns. by rewrite strip_all_space.
Qed.

Lemma patterns_spec_witness :
  patterns (String (ascii_of_nat 9) "  ") = [].
Proof.
  apply (proj1 (proj2 patterns_spec)). reflexivity.
Defined.

(** C6. Accepted with no pattern, the dialog clears the filter: the model's
    name filters become the empty list, as [clear_pattern_filter] leaves
    them.  Accepted with patterns, they become the model's name filters and
    the filter-disables switch goes off.  A dialog that is not accepted
    changes nothing. *)
Theorem filter_by_patterns_spec (text : string) (w : MainWindow) :
  (patterns text = [] →
     filter_by_patterns true text w = clear_pattern_filter w
     ∧ nameFilters (filter_by_patterns true text w) = []
     ∧ nameFilterDisables (filter_by_patterns true text w) = true
     ∧ status_message (filter_by_patterns true text w)
       = "File pattern filter cleared"%string
     ∧ status_timeout (filter_by_patterns true text w) = 2500%Z)
  ∧ (patterns text ≠ [] →
     nameFilters (filter_by_patterns true text w) = patterns text
     ∧ nameFilterDisables (filter_by_patterns true text w) = false
     ∧ status_message (filter_by_patterns true text w)
       = ("Filter: " ++ PyStr.join ";" (patterns text))%string
     ∧ status_timeout (filter_by_patterns true text w) = 4000%Z)
  ∧ filter_by_patterns false text w = w.
Proof.
  unfold filter_by_patterns. simpl negb. cbv iota zeta.
  split; [|split; [|done]].
  - intros ->. done.
  - intros Hne. destruct (patterns text); done.
Qed.

Lemma filter_by_patterns_spec_witness :
  nameFilters (filter_by_patterns true "  " Demo.start) = []
  ∧ nameFilters (filter_by_patterns true "*.py; *.md" Demo.start)
    = ["*.py"%string; "*.md"%string]
  ∧ nameFilterDisables (filter_by_patterns true "*.py; *.md" Demo.start)
    = false.
Proof.
  split.
  - apply (proj1 (filter_by_patterns_spec "  " Demo.start) eq_refl).
  - pose proof (proj1 (proj2 (filter_by_patterns_spec "*.py; *.md" Demo.start))
                  ltac:(vm_compute; discriminate)) as (Hf & Hd & _).
    split; [exact Hf|exact Hd].
Defined.

(** ** Searching *)

(** C2. The search walk takes at most 4000 nodes off its stack, whatever
    the model holds, the needle and the window: [_filter_tree] adds at most
    4000 entries to the log of visited nodes.  More generally
    [_expand_matching_under] visits at most [max_nodes] nodes, returns
    [max_nodes] less the number visited, and has then left its loop by the
    loop's own test. *)
Theorem search_walk_capped (m : QFileSystemModel) (needle : string)
    (w : MainWindow) :
  (∃ visited,
     popped (_filter_tree m needle w) = popped w ++ visited
     ∧ (length visited ≤ 4000)%nat)
  ∧ (∀ par max_nodes,
       ∃ visited,
         popped (snd (_expand_matching_under m par needle max_nodes w))
         = popped w ++ visited
         ∧ (length visited ≤ Z.to_nat max_nodes)%nat
         ∧ fst (_expand_matching_under m par needle max_nodes w)
           = (max_nodes - Z.of_nat (length visited))%Z
         ∧ nonempty (ws_stack (walk_from m par needle max_nodes w))
           && (0 <? ws_remaining (walk_from m par needle max_nodes w))%Z
           = false).
Proof.
  split.
  - destruct (decide (needle = EmptyString)) as [->|Hne].
    + exists []. rewrite app_nil_r. split; [done|simpl; lia].
    + destruct (filter_tree_walks m needle w Hne) as (rest & Hp & Hl & _).
      exists (rootIndex w :: rest). split; [done|simpl; lia].
  - intros par max_nodes. unfold _expand_matching_under. cbv zeta.
    destruct (walk_from_spec m par needle max_nodes w)
      as (visited & Hp & Hr & Hl & _).
    exists visited. simpl. repeat split; try done; [lia|].
    by apply walk_loop_exits.
Qed.

Lemma lower_empty (s : string) :
  PyStr.lower s = EmptyString ↔ s = EmptyString.
Proof. destruct s; simpl; split; congruence. Qed.

(** The phases of [_apply_name_filter]: what was expanded before has no
    bearing on its result; on an empty search text nothing is expanded and
    no node visited; the walk runs, from the root of the view, exactly when
    the stripped text is not empty. *)
Lemma apply_name_filter_phases (m : QFileSystemModel) (w : MainWindow) :
  let w' := _apply_name_filter m w in
  (∀ e, _apply_name_filter m (set_expanded e w) = w')
  ∧ (search_text w = EmptyString →
       expanded w' = ∅ ∧ popped w' = popped w)
  ∧ (popped w' ≠ popped w →
       search_text w ≠ EmptyString
       ∧ ∃ rest, popped w' = popped w ++ rootIndex w :: rest)
  ∧ (PyStr.strip (search_text w) ≠ EmptyString →
       ∃ rest, popped w' = popped w ++ rootIndex w :: rest).
Proof.
  cbv zeta. unfold _apply_name_filter.
  set (needle := PyStr.lower (PyStr.strip (search_text w))).
  assert (PyStr.strip (search_text w) ≠ EmptyString →
          ∃ rest, popped (_filter_tree m needle w)
                  = popped w ++ rootIndex w :: rest) as Hrun.
  { intros Hne. assert (needle ≠ EmptyString) as Hn.
    { unfold needle. by rewrite lower_empty. }
    destruct (filter_tree_walks m needle w Hn) as (rest & Hp & _).
    by exists rest. }
  split; [done|]. split; [|split; [|done]].
  - intros Ht. unfold needle. rewrite Ht. done.
  - intros Hp.
    destruct (decide (PyStr.strip (search_text w) = EmptyString)) as [He|Hne].
    + exfalso. apply Hp. unfold needle. rewrite He. done.
    + split; [|by apply Hrun]. intros Ht. apply Hne. by rewrite Ht.
Qed.

(** *** The walk does not read the search box *)

Section SearchTextFrame.

Variable m : QFileSystemModel.
Variable s : string.

Lemma expand_with_parents_set_search_text (p : QModelIndex)
    (w : MainWindow) :
  expand_with_parents p (set_search_text s w)
  = set_search_text s (expand_with_parents p w).
Proof.
  revert w. induction p as [|r p IH]; intros w; simpl; [done|].
  rewrite <- IH. done.
Qed.

Lemma walk_loop_set_search_text (fuel : nat) (needle : string)
    (stk : list QModelIndex) (r : Z) (w : MainWindow) :
  walk_loop m fuel needle (mkWalk stk r (set_search_text s w))
  = mkWalk (ws_stack (walk_loop m fuel needle (mkWalk stk r w)))
      (ws_remaining (walk_loop m fuel needle (mkWalk stk r w)))
      (set_search_text s (ws_win (walk_loop m fuel needle (mkWalk stk r w)))).
Proof.
  revert stk r w. induction fuel as [|fuel IH]; intros stk r w; simpl;
    [done|].
  destruct stk as [|idx stk]; simpl; [done|].
  destruct (0 <? r)%Z; [|done].
  unfold walk_iter. simpl.
  destruct idx as [|i idx]; simpl.
  - apply (IH stk (r - 1)%Z (note_pop [] w)).
  - destruct (PyStr.contains needle (PyStr.lower (fileName m (i :: idx)))).
    + rewrite <- IH. f_equal. f_equal.
      apply (expand_with_parents_set_search_text idx
               (tree_expand (i :: idx) (note_pop (i :: idx) w))).
    + apply (IH _ (r - 1)%Z (note_pop (i :: idx) w)).
Qed.

Lemma filter_tree_set_search_text (needle : string) (w : MainWindow) :
  _filter_tree m needle (set_search_text s w)
  = set_search_text s (_filter_tree m needle w).
Proof.
  unfold _filter_tree. cbv zeta. destruct (PyStr.truthy needle); simpl;
    [|done].
  unfold _expand_matching_under, walk_from. cbv zeta. simpl snd.
  change (tree_collapseAll (tree_setUpdatesEnabled false (set_search_text s w)))
    with (set_search_text s (tree_collapseAll (tree_setUpdatesEnabled false w))).
  rewrite walk_loop_set_search_text. done.
Qed.

End SearchTextFrame.

(** *** The walk reads names through [lower] only *)

Lemma push_children_same_shape (m1 m2 : QFileSystemModel)
    (idx : QModelIndex) (rows : nat) (stk : list QModelIndex) :
  (∀ i, rowCount m1 i = rowCount m2 i) →
  push_children m1 idx rows stk = push_children m2 idx rows stk.
Proof.
  intros Hrc.
  assert (∀ r, model_index m1 r idx = model_index m2 r idx) as Hmi.
  { intros r. unfold model_index. by rewrite Hrc. }
  unfold push_children. revert stk.
  induction (rev (seq 0 rows)) as [|r l IH]; intros stk; simpl; [done|].
  rewrite IH. f_equal. by rewrite Hmi.
Qed.

Lemma walk_loop_same_up_to_case (m1 m2 : QFileSystemModel) (fuel : nat)
    (needle : string) (st : walk_state) :
  same_up_to_case m1 m2 →
  walk_loop m1 fuel needle st = walk_loop m2 fuel needle st.
Proof.
  intros (Hn & Hd & Hrc). revert st.
  induction fuel as [|fuel IH]; intros st; simpl; [done|].
  destruct (nonempty (ws_stack st) && (0 <? ws_remaining st)%Z); [|done].
  rewrite IH. f_equal. unfold walk_iter.
  destruct (ws_stack st) as [|idx stk]; [done|].
  destruct (isValid idx); simpl; [|done].
  rewrite Hn, Hd, Hrc. by rewrite (push_children_same_shape m1 m2).
Qed.

Lemma filter_tree_same_up_to_case (m1 m2 : QFileSystemModel)
    (needle : string) (w : MainWindow) :
  same_up_to_case m1 m2 →
  _filter_tree m1 needle w = _filter_tree m2 needle w.
Proof.
  intros Hs. unfold _filter_tree, _expand_matching_under, walk_from.
  by rewrite (walk_loop_same_up_to_case m1 m2).
Qed.

(** What the outcome of the filter does not depend on: blanks around the
    text, the case of its letters, the case of the names in the model; and
    a text of white space only is handled as the empty text is. *)
Lemma needle_invariances (m : QFileSystemModel)
    (w : MainWindow) :
  (PyStr.all_space (search_text w) = true →
     _apply_name_filter m w
     = set_search_text (search_text w)
         (_apply_name_filter m (set_search_text EmptyString w))
     ∧ expanded (_apply_name_filter m w) = ∅
     ∧ popped (_apply_name_filter m w) = popped w)
  ∧ (∀ ws1 t ws2 t',
       PyStr.all_space ws1 = true → PyStr.all_space ws2 = true →
       PyStr.lower t = PyStr.lower t' →
       _apply_name_filter m (set_search_text (ws1 ++ t ++ ws2)%string w)
       = set_search_text (ws1 ++ t ++ ws2)%string
           (_apply_name_filter m (set_search_text t' w)))
  ∧ (∀ m', same_up_to_case m m' →
       _apply_name_filter m' w = _apply_name_filter m w)
  ∧ (∀ a, a ∈ expanded (_apply_name_filter m w) →
       ∃ v, name_matches m (PyStr.lower (PyStr.strip (search_text w))) v = true
            ∧ at_or_above a v).
Proof.
  split; [|split; [|split]].
  - intros Hws. unfold _apply_name_filter. simpl search_text.
    rewrite (strip_all_space _ Hws). done.
  - intros ws1 t ws2 t' H1 H2 Hl. unfold _apply_name_filter. simpl search_text.
    rewrite strip_padded by done.
    rewrite (lower_strip t), Hl, <- (lower_strip t').
    rewrite !filter_tree_set_search_text. done.
  - intros m' Hs. unfold _apply_name_filter.
    symmetry. by apply filter_tree_same_up_to_case.
  - intros a Ha. unfold _apply_name_filter in Ha.
    destruct (decide (PyStr.lower (PyStr.strip (search_text w)) = EmptyString))
      as [He|Hne].
    + rewrite He in Ha. by apply not_elem_of_empty in Ha.
    + destruct (filter_tree_walks m _ w Hne) as (rest & _ & _ & _ & _ & He).
      apply He in Ha as (v & _ & _ & Hm & Hab). by exists v.
Qed.

(** C3, as the specification has it, fails.  In [C:/proj], after a search
    for "zzz", the row of [notes.txt] is on display although neither its
    name nor the name of any node below it holds "zzz": the rows under the
    root of the view are shown whether they match or not. *)
Lemma visible_rows_match_fails :
  ¬ visible_rows_match Demo.model (set_search_text "zzz" Demo.start)
  ∧ visible Demo.model
      (_apply_name_filter Demo.model (set_search_text "zzz" Demo.start))
      [2; 0; 0]%nat = true
  ∧ matches_search Demo.model "zzz" [2; 0; 0]%nat = false.
Proof.
  assert (visible Demo.model
            (_apply_name_filter Demo.model (set_search_text "zzz" Demo.start))
            [2; 0; 0]%nat = true) as Hv by (vm_compute; reflexivity).
  split; [|split; [exact Hv|vm_compute; reflexivity]].
  intros H. destruct (H [2; 0; 0]%nat Hv) as [Hm|(d & Hd & [k ->] & Hm)].
  - vm_compute in Hm. discriminate.
  - unfold matches_search in Hm. simpl fileName in Hm.
    unfold Demo.node_at in Hm. rewrite rev_app_distr in Hm.
    destruct (rev k) as [|r rk] eqn:Hk.
    + apply (f_equal (@rev nat)) in Hk. rewrite rev_involutive in Hk.
      subst k. by apply Hd.
    + destruct r; vm_compute in Hm; discriminate.
Qed.

Lemma visible_cons (m : QFileSystemModel) (w : MainWindow) (r : nat)
    (p : QModelIndex) :
  visible m w (r :: p)
  = (r <? rowCount m p)%nat
    && (if decide (p = rootIndex w) then true
        else isDir m p && bool_decide (p ∈ expanded w) && visible m w p).
Proof. reflexivity. Qed.

(** C3, amended.  After the filter has run, the expanded nodes are exactly
    the visited nodes whose lowered name holds the needle (the search text
    stripped and lowered) together with all their ancestors: a node with no
    visited match at or below it stays collapsed.  A row on display is then
    a child of the root of the view, or a child of such an expanded node;
    it need not match itself. *)
Theorem filter_expands_exactly_matches (m : QFileSystemModel)
    (w : MainWindow) :
  let needle := PyStr.lower (PyStr.strip (search_text w)) in
  let w' := _apply_name_filter m w in
  ∃ visited,
    popped w' = popped w ++ visited
    ∧ (∀ a, a ∈ expanded w' ↔ leads_to_match m needle visited a)
    ∧ (∀ a, (∀ v, v ∈ visited → at_or_above a v →
               name_matches m needle v = false) →
            a ∉ expanded w')
    ∧ (∀ idx, visible m w' idx = true →
         parent idx = rootIndex w
         ∨ leads_to_match m needle visited (parent idx)).
Proof.
  cbv zeta. unfold _apply_name_filter.
  set (needle := PyStr.lower (PyStr.strip (search_text w))).
  assert (∃ visited,
            popped (_filter_tree m needle w) = popped w ++ visited
            ∧ ∀ a, a ∈ expanded (_filter_tree m needle w) ↔
                   leads_to_match m needle visited a)
    as (visited & Hp & He).
  { destruct (decide (needle = EmptyString)) as [->|Hne].
    - exists []. rewrite app_nil_r. split; [done|]. intros a. simpl. split.
      + intros Ha. by apply not_elem_of_empty in Ha.
      + intros (v & Hv & _). by apply elem_of_nil in Hv.
    - destruct (filter_tree_walks m needle w Hne)
        as (rest & Hp & _ & _ & _ & He).
      by exists (rootIndex w :: rest). }
  exists visited. split; [done|]. split; [done|]. split.
  - intros a Hno Ha. apply He in Ha as (v & Hv & _ & Hm & Hab).
    rewrite (Hno v Hv Hab) in Hm. discriminate.
  - intros idx Hvis. destruct idx as [|r p]; [discriminate|].
    rewrite visible_cons in Hvis. apply andb_prop in Hvis as [_ Hvis].
    destruct (filter_tree_frame m needle w) as [Ho _].
    assert (rootIndex (_filter_tree m needle w) = rootIndex w) as Hr.
    { unfold outside_tree in Ho. by simplify_eq. }
    rewrite Hr in Hvis. simpl.
    destruct (decide (p = rootIndex w)) as [?|_]; [by left|].
    right. apply He.
    apply andb_prop in Hvis as [Hvis _]. apply andb_prop in Hvis as [_ Hin].
    by apply bool_decide_eq_true in Hin.
Qed.

(** ** Runs on the demo *)

Example strip_ex : PyStr.strip "  a b  " = "a b"%string.
Proof. reflexivity. Qed.

Example split_ex :
  PyStr.split ";" "a;;b;" = ["a"; ""; "b"; ""]%string.
Proof. reflexivity. Qed.

Example lower_ex : PyStr.lower "ReadMe.TXT" = "readme.txt"%string.
Proof. reflexivity. Qed.

Example contains_ex : PyStr.contains "me.t" "readme.txt" = true.
Proof. reflexivity. Qed.

Example join_ex : PyStr.join ";" ["*.py"; "*.md"]%string = "*.py;*.md"%string.
Proof. reflexivity. Qed.

(** A search for "main" walks [C:/proj] depth first, row 0 first, and
    expands the match with everything above it. *)
Example search_main_visits :
  popped (Demo.typed "main" Demo.start)
  = [[0; 0]; [0; 0; 0]; [0; 0; 0; 0]; [1; 0; 0; 0]; [1; 0; 0]; [2; 0; 0]]%nat.
Proof. vm_compute. reflexivity. Qed.

Example search_main_expands :
  elements (expanded (Demo.typed "main" Demo.start))
  = [[0; 0; 0; 0]; [0; 0; 0]; [0; 0]; [0]]%nat.
Proof. vm_compute. reflexivity. Qed.

(** * The rest of the code *)

(** ** The walk, node by node *)

Section WalkOrder.

Variable m : QFileSystemModel.

(** Lines 210-215 leave the children of a directory on top of the stack,
    row 0 uppermost. *)
Lemma push_children_rows (idx : QModelIndex) (rows : nat)
    (stk : list QModelIndex) :
  (rows ≤ rowCount m idx)%nat →
  push_children m idx rows stk = map (λ r, r :: idx) (seq 0 rows) ++ stk.
Proof.
  unfold push_children. revert stk.
  induction rows as [|n IH]; intros stk Hn; [done|].
  assert (model_index m n idx = n :: idx) as Hmi.
  { unfold model_index.
    by destruct (Nat.ltb_spec n (rowCount m idx)) as [_|?]; [|lia]. }
  rewrite seq_S, rev_app_distr, map_app. simpl. rewrite Hmi. simpl.
  rewrite IH by lia. by rewrite <- app_assoc.
Qed.

(** The stack after one turn of the loop. *)
Lemma walk_iter_stack (needle : string) (st : walk_state)
    (idx : QModelIndex) (stk : list QModelIndex) :
  ws_stack st = idx :: stk →
  ws_stack (walk_iter m needle st)
  = if isValid idx && isDir m idx then children_of m idx ++ stk else stk.
Proof.
  intros Hs. unfold walk_iter. rewrite Hs.
  destruct (isValid idx); simpl; [|done].
  destruct (isDir m idx); [|done].
  by apply push_children_rows.
Qed.

(** What every turn of the loop keeps, the loop keeps. *)
Lemma walk_loop_invariant (needle : string) (Inv : walk_state → Prop) :
  (∀ st idx stk,
     ws_stack st = idx :: stk → (0 < ws_remaining st)%Z →
     Inv st → Inv (walk_iter m needle st)) →
  ∀ fuel st, Inv st → Inv (walk_loop m fuel needle st).
Proof.
  intros Hstep fuel. induction fuel as [|fuel IH]; intros st Hi; simpl;
    [done|].
  destruct (nonempty (ws_stack st) && (0 <? ws_remaining st)%Z) eqn:Hc;
    [|done].
  apply andb_prop in Hc as [Hne Hpos]. apply Z.ltb_lt in Hpos.
  destruct (ws_stack st) as [|idx stk] eqn:Hs; [done|].
  apply IH. by apply (Hstep st idx stk).
Qed.

Lemma reachable_step (start n : QModelIndex) :
  reachable m start n →
  n = start
  ∨ (isValid start = true ∧ isDir m start = true
     ∧ ∃ c, c ∈ children_of m start ∧ reachable m c n).
Proof.
  induction 1 as [|p r Hp IH Hv Hd Hr]; [by left|]. right.
  destruct IH as [->|(Hvs & Hds & c & Hc & Hcp)].
  - repeat split; try done. exists (r :: start). split; [|constructor].
    unfold children_of. apply list_elem_of_fmap. exists r. split; [done|].
    apply elem_of_seq. lia.
  - repeat split; try done. exists c. split; [done|]. by constructor.
Qed.

Lemma reachable_below (start n : QModelIndex) :
  reachable m start n → start `suffix_of` n.
Proof.
  induction 1 as [|p r Hp IH Hv Hd Hr]; [done|]. by apply suffix_cons_r.
Qed.

Lemma elem_of_children (idx c : QModelIndex) :
  c ∈ children_of m idx ↔ ∃ r, c = r :: idx ∧ (r < rowCount m idx)%nat.
Proof.
  unfold children_of. rewrite list_elem_of_fmap. split.
  - intros (r & -> & Hr). apply elem_of_seq in Hr. exists r. split; [done|lia].
  - intros (r & -> & Hr). exists r. split; [done|]. apply elem_of_seq. lia.
Qed.

End WalkOrder.

Section WalkVisits.

Variable m : QFileSystemModel.

(** The skeleton of the walk: a relation between the nodes visited so far
    and the stack that every turn keeps holds when the walk is over. *)
Lemma walk_from_visited (needle : string)
    (P : list QModelIndex → list QModelIndex → Prop) :
  (∀ visited idx stk,
     P visited (idx :: stk) →
     P (visited ++ [idx])
       (if isValid idx && isDir m idx then children_of m idx ++ stk
        else stk)) →
  ∀ par max_nodes w,
    P [] [par] →
    ∃ visited,
      popped (ws_win (walk_from m par needle max_nodes w))
      = popped w ++ visited
      ∧ P visited (ws_stack (walk_from m par needle max_nodes w)).
Proof.
  intros Hstep par max_nodes w H0. unfold walk_from.
  apply (walk_loop_invariant m needle
           (λ st, ∃ visited, popped (ws_win st) = popped w ++ visited
                             ∧ P visited (ws_stack st))).
  - intros st idx stk Hs _ (visited & Hp & HP).
    exists (visited ++ [idx]).
    destruct (walk_iter_spec m needle st idx stk Hs) as (-> & _).
    rewrite (walk_iter_stack m needle st idx stk Hs), Hp, <- app_assoc.
    split; [done|]. apply Hstep. by rewrite <- Hs.
  - exists []. by rewrite app_nil_r.
Qed.

(** The walk stays among the nodes reachable from its start. *)
Lemma walk_popped_reachable (par : QModelIndex) (needle : string)
    (max_nodes : Z) (w : MainWindow) :
  ∃ visited,
    popped (snd (_expand_matching_under m par needle max_nodes w))
    = popped w ++ visited
    ∧ (∀ v, v ∈ visited → reachable m par v)
    ∧ (∀ v, v ∈ visited → par `suffix_of` v).
Proof.
  destruct (walk_from_visited needle
              (λ visited stk, (∀ v, v ∈ visited → reachable m par v)
                              ∧ (∀ s, s ∈ stk → reachable m par s)))
    with (par := par) (max_nodes := max_nodes) (w := w)
    as (visited & Hp & Hv & _).
  - intros visited idx stk [Hv Hs]. split.
    + intros v [Hin|Hin%list_elem_of_singleton]%elem_of_app; [by apply Hv|].
      subst v. apply Hs. by left.
    + intros s Hin.
      destruct (isValid idx) eqn:Hvi; simpl in Hin;
        [|apply Hs; by right].
      destruct (isDir m idx) eqn:Hd; [|apply Hs; by right].
      apply elem_of_app in Hin as [Hin|Hin]; [|apply Hs; by right].
      apply elem_of_children in Hin as (r & -> & Hr).
      apply reach_child; try done. apply Hs. by left.
  - split; [intros v Hin; by apply elem_of_nil in Hin|].
    intros s Hin%list_elem_of_singleton. subst s. constructor.
  - exists visited. split; [done|]. split; [done|].
    intros v Hin. apply (reachable_below m). by apply Hv.
Qed.

(** X1. The walk visits only the start node and nodes reached from it by
    going down through valid directories along rows the model has: it never
    looks into a file, never leaves the subtree of its start, and never
    makes up a row. *)
Theorem walk_visits_reachable_only (par : QModelIndex) (needle : string)
    (max_nodes : Z) (w : MainWindow) :
  ∃ visited,
    popped (snd (_expand_matching_under m par needle max_nodes w))
    = popped w ++ visited
    ∧ (∀ v, v ∈ visited → reachable m par v)
    ∧ (∀ v, v ∈ visited → par `suffix_of` v).
Proof. apply walk_popped_reachable. Qed.

Lemma sibling_not_above (idx : QModelIndex) (r r' : nat) :
  r ≠ r' → ¬ (r :: idx) `suffix_of` (r' :: idx).
Proof.
  intros Hne [Heq|Hsuf]%suffix_cons_inv; [congruence|].
  by apply suffix_cons_not in Hsuf.
Qed.

Lemma antichain_push (idx : QModelIndex) (rows : list nat)
    (stk : list QModelIndex) :
  NoDup rows → antichain (idx :: stk) →
  antichain (map (λ r, r :: idx) rows ++ stk).
Proof.
  intros Hnd [Hi Hs]. induction rows as [|r rows IH]; simpl; [done|].
  apply NoDup_cons in Hnd as [Hr Hnd]. split; [|by apply IH].
  intros y [Hy|Hy]%elem_of_app.
  - apply list_elem_of_fmap in Hy as (r' & -> & Hr').
    split; apply sibling_not_above; intros ->; done.
  - destruct (Hi y Hy) as [H1 H2]. split; intros Hsuf.
    + apply H1. by apply (suffix_cons_l _ _ r).
    + destruct y as [|y0 y]; [apply H2, suffix_nil|].
      apply suffix_cons_inv in Hsuf as [Heq|Hsuf]; [|done].
      apply H1. rewrite Heq. apply suffix_cons_r. done.
Qed.

(** X2. The walk visits no node twice: the cap of [max_nodes] counts
    distinct nodes. *)
Theorem walk_visits_each_once (par : QModelIndex) (needle : string)
    (max_nodes : Z) (w : MainWindow) :
  ∃ visited,
    popped (snd (_expand_matching_under m par needle max_nodes w))
    = popped w ++ visited
    ∧ NoDup visited.
Proof.
  destruct (walk_from_visited needle
              (λ visited stk,
                 NoDup visited ∧ antichain stk
                 ∧ ∀ s v, s ∈ stk → v ∈ visited → ¬ s `suffix_of` v))
    with (par := par) (max_nodes := max_nodes) (w := w)
    as (visited & Hp & Hnd & _).
  - intros visited idx stk (Hnd & Hac & Hsv).
    assert (antichain stk) as Hstk by apply Hac.
    assert (∀ s, s ∈ stk → ¬ s `suffix_of` idx) as Hsi.
    { intros s Hs. by apply (proj1 Hac s Hs). }
    split; [|split].
    + apply NoDup_app. split; [done|]. split; [|apply NoDup_singleton].
      intros v Hv Hin%list_elem_of_singleton. subst v.
      apply (Hsv idx idx); [by left|done|done].
    + destruct (isValid idx && isDir m idx); [|exact Hstk].
      apply antichain_push; [apply NoDup_seq|exact Hac].
    + intros s v Hs [Hv|Hv%list_elem_of_singleton]%elem_of_app.
      * destruct (isValid idx && isDir m idx).
        -- apply elem_of_app in Hs as [Hs|Hs].
           ++ apply elem_of_children in Hs as (r & -> & _). intros Hsuf.
              apply (Hsv idx v); [by left|done|].
              by apply (suffix_cons_l _ _ r).
           ++ apply Hsv; [by right|done].
        -- apply Hsv; [by right|done].
      * subst v. destruct (isValid idx && isDir m idx).
        -- apply elem_of_app in Hs as [Hs|Hs]; [|by apply Hsi].
           apply elem_of_children in Hs as (r & -> & _).
           apply suffix_cons_not.
        -- by apply Hsi.
  - split; [apply NoDup_nil_2|]. split; [|intros s v _ Hv; by apply elem_of_nil in Hv].
    simpl. split; [|done]. intros y Hy. by apply elem_of_nil in Hy.
  - by exists visited.
Qed.

(** With some allowance left, everything reachable has been visited and
    every match expanded. *)
Lemma walk_reaches_all (par : QModelIndex) (needle : string)
    (max_nodes : Z) (w : MainWindow) :
  (0 < fst (_expand_matching_under m par needle max_nodes w))%Z →
  ∃ visited,
    popped (snd (_expand_matching_under m par needle max_nodes w))
    = popped w ++ visited
    ∧ (∀ n, reachable m par n → n ∈ visited)
    ∧ (∀ n a, reachable m par n → isValid n = true →
              name_matches m needle n = true → at_or_above a n →
              a ∈ expanded (snd (_expand_matching_under m par needle
                                   max_nodes w))).
Proof.
  unfold _expand_matching_under. cbv zeta. simpl fst. simpl snd. intros Hrem.
  destruct (walk_from_visited needle
              (λ visited stk,
                 ∀ n, reachable m par n →
                      n ∈ visited ∨ ∃ s, s ∈ stk ∧ reachable m s n))
    with (par := par) (max_nodes := max_nodes) (w := w)
    as (visited & Hp & Hall).
  - intros visited idx stk Hinv n Hn.
    destruct (Hinv n Hn) as [Hv|(s & Hs & Hsn)].
    { left. apply elem_of_app. by left. }
    apply elem_of_cons in Hs as [->|Hs].
    + apply reachable_step in Hsn as [->|(Hvi & Hd & c & Hc & Hcn)].
      * left. apply elem_of_app. right. by apply list_elem_of_singleton.
      * right. rewrite Hvi, Hd. simpl. exists c. split; [|done].
        apply elem_of_app. by left.
    + right. exists s. split; [|done].
      destruct (isValid idx && isDir m idx); [|done].
      apply elem_of_app. by right.
  - intros n Hn. right. exists par. split; [by left|done].
  - pose proof (walk_loop_exits m (Z.to_nat max_nodes) needle
                  (mkWalk [par] max_nodes w) eq_refl) as Hexit.
    cbv zeta in Hexit. fold (walk_from m par needle max_nodes w) in Hexit.
    apply andb_false_iff in Hexit as [Hexit|Hexit];
      [|apply Z.ltb_ge in Hexit; lia].
    destruct (ws_stack (walk_from m par needle max_nodes w)) as [|s stk];
      [|done].
    assert (∀ n, reachable m par n → n ∈ visited) as Hvis.
    { intros n Hn. destruct (Hall n Hn) as [?|(s & Hs & _)]; [done|].
      by apply elem_of_nil in Hs. }
    exists visited. split; [done|]. split; [done|].
    intros n a Hn Hvn Hm Ha.
    destruct (walk_from_spec m par needle max_nodes w)
      as (visited' & Hp' & _ & _ & _ & _ & _ & He).
    rewrite Hp in Hp'. apply app_inv_head in Hp'. subst visited'.
    apply He. right. exists n. split; [by apply Hvis|done].
Qed.

(** X3. When the walk returns with some of its allowance left, it has
    visited every node that can be reached from the start through valid
    directories, and has expanded every valid one of them whose lowered name
    holds the needle, with all its ancestors. *)
Theorem walk_complete_below_cap (par : QModelIndex) (needle : string)
    (max_nodes : Z) (w : MainWindow) :
  (0 < fst (_expand_matching_under m par needle max_nodes w))%Z →
  ∃ visited,
    popped (snd (_expand_matching_under m par needle max_nodes w))
    = popped w ++ visited
    ∧ (∀ n, reachable m par n → n ∈ visited)
    ∧ (∀ n a, reachable m par n → isValid n = true →
              name_matches m needle n = true → at_or_above a n →
              a ∈ expanded (snd (_expand_matching_under m par needle
                                   max_nodes w))).
Proof. apply walk_reaches_all. Qed.

End WalkVisits.

Lemma walk_complete_below_cap_witness :
  (0 < fst (_expand_matching_under Demo.model [0; 0]%nat "main" 4000
              Demo.start))%Z
  ∧ ∃ visited,
      popped (snd (_expand_matching_under Demo.model [0; 0]%nat "main" 4000
                     Demo.start))
      = popped Demo.start ++ visited
      ∧ ∀ n, reachable Demo.model [0; 0]%nat n → n ∈ visited.
Proof.
  split; [vm_compute; reflexivity|].
  destruct (walk_complete_below_cap Demo.model [0; 0]%nat "main" 4000
              Demo.start ltac:(vm_compute; reflexivity))
    as (visited & Hp & Hall & _).
  exists visited. split; [exact Hp|exact Hall].
Defined.

(** ** The order of the walk *)

Section WalkPreorder.

Variable m : QFileSystemModel.

Lemma flat_map_agree {A B} (f g : A → list B) (l : list A) :
  (∀ x, In x l → f x = g x) → flat_map f l = flat_map g l.
Proof.
  induction l as [|a l IH]; intros H; simpl; [done|].
  rewrite (H a) by (by left). rewrite IH; [done|].
  intros x Hx. apply H. by right.
Qed.

Lemma children_of_none (idx : QModelIndex) :
  (rowCount m idx =? 0)%nat = true → children_of m idx = [].
Proof. intros H%Nat.eqb_eq. unfold children_of. by rewrite H. Qed.

(** Looking deeper than a subtree goes changes nothing. *)
Lemma shallow_deeper (d : nat) :
  ∀ idx d', shallow m d idx = true → (d ≤ d')%nat →
    preorder m d' idx = preorder m d idx ∧ shallow m d' idx = true.
Proof.
  assert (∀ idx d1 d2,
            negb (isValid idx && isDir m idx) || (rowCount m idx =? 0)%nat
            = true →
            preorder m d1 idx = preorder m d2 idx
            ∧ shallow m d1 idx = true) as Hleaf.
  { intros idx d1 d2 H. split.
    - assert (∀ k, preorder m k idx = [idx]) as E; [|by rewrite !E].
      intros [|k]; simpl; [done|].
      destruct (isValid idx && isDir m idx); [|done].
      simpl in H. by rewrite (children_of_none idx H).
    - destruct d1; simpl; by rewrite H. }
  induction d as [|d IH]; intros idx d' Hs Hle.
  - apply Hleaf. simpl in Hs. by rewrite orb_false_r in Hs.
  - simpl in Hs. apply orb_prop in Hs as [Hs|Hs]; [by apply Hleaf|].
    destruct d' as [|d']; [lia|].
    rewrite forallb_forall in Hs.
    destruct (negb (isValid idx && isDir m idx) || (rowCount m idx =? 0)%nat)
      eqn:Hl; [by apply Hleaf|].
    split.
    + simpl. destruct (isValid idx && isDir m idx); [|done]. f_equal.
      apply flat_map_agree. intros c Hc. apply IH; [by apply Hs|lia].
    + simpl. rewrite Hl. simpl. apply forallb_forall. intros c Hc.
      apply IH; [by apply Hs|lia].
Qed.

(** The listing of a subtree that is shallow enough, one level at a time. *)
Lemma preorder_unfold (d : nat) (idx : QModelIndex) :
  shallow m d idx = true →
  preorder m d idx
  = idx :: (if isValid idx && isDir m idx
            then flat_map (preorder m d) (children_of m idx) else [])
  ∧ (isValid idx && isDir m idx = true →
     ∀ c, In c (children_of m idx) → shallow m d c = true).
Proof.
  intros Hs. destruct (isValid idx && isDir m idx) eqn:Hvd.
  2: { split; [|done]. destruct d; simpl; by rewrite ?Hvd. }
  destruct (rowCount m idx =? 0)%nat eqn:Hrc.
  { rewrite (children_of_none idx Hrc). split; [|done].
    destruct d; simpl; [done|]. by rewrite Hvd, (children_of_none idx Hrc). }
  destruct d as [|d]; simpl in Hs; rewrite Hvd, Hrc in Hs; [done|].
  simpl in Hs. rewrite forallb_forall in Hs. split.
  - change (preorder m (S d) idx)
      with (idx :: (if isValid idx && isDir m idx
                    then flat_map (preorder m d) (children_of m idx)
                    else [])).
    rewrite Hvd. f_equal. apply flat_map_agree. intros c Hc.
    symmetry. apply shallow_deeper; [by apply Hs|lia].
  - intros _ c Hc. apply (shallow_deeper d); [by apply Hs|lia].
Qed.

(** The walk follows the parent-first listing of a shallow subtree. *)
Lemma walk_popped_preorder (depth : nat) (par : QModelIndex)
    (needle : string) (max_nodes : Z) (w : MainWindow) :
  shallow m depth par = true →
  popped (snd (_expand_matching_under m par needle max_nodes w))
  = popped w ++ take (Z.to_nat max_nodes) (preorder m depth par).
Proof.
  intros Hsh. unfold _expand_matching_under. cbv zeta. simpl snd.
  destruct (walk_from_visited m needle
              (λ visited stk,
                 (∀ s, In s stk → shallow m depth s = true)
                 ∧ visited ++ flat_map (preorder m depth) stk
                   = preorder m depth par))
    with (par := par) (max_nodes := max_nodes) (w := w)
    as (visited & Hp & _ & Hpre).
  - intros visited idx stk [Hall Heq].
    destruct (preorder_unfold depth idx (Hall idx (or_introl eq_refl)))
      as [Hun Hch].
    simpl in Heq. rewrite Hun in Heq. rewrite <- app_assoc. simpl.
    destruct (isValid idx && isDir m idx).
    + split.
      * intros s [Hs|Hs]%in_app_or; [by apply Hch|]. apply Hall. by right.
      * by rewrite flat_map_app.
    + split; [|done]. intros s Hs. apply Hall. by right.
  - split; [|simpl; by rewrite app_nil_r].
    intros s [<-|[]]. done.
  - rewrite Hp. f_equal.
    destruct (walk_from_spec m par needle max_nodes w)
      as (visited' & Hp' & Hr & Hl & _).
    rewrite Hp in Hp'. apply app_inv_head in Hp'. subst visited'.
    pose proof (walk_loop_exits m (Z.to_nat max_nodes) needle
                  (mkWalk [par] max_nodes w) eq_refl) as Hexit.
    cbv zeta in Hexit. fold (walk_from m par needle max_nodes w) in Hexit.
    apply andb_false_iff in Hexit as [Hexit|Hexit].
    + destruct (ws_stack (walk_from m par needle max_nodes w)); [|done].
      simpl in Hpre. rewrite app_nil_r in Hpre. rewrite <- Hpre.
      symmetry. by apply take_ge.
    + apply Z.ltb_ge in Hexit. rewrite <- Hpre.
      symmetry. apply take_app_length'. lia.
Qed.

(** X4. On a subtree at most [depth] levels deep, the walk visits the
    nodes in the order of the parent-first, first-row-first listing of the
    subtree, and stops after [max_nodes] of them. *)
Theorem walk_is_preorder (depth : nat) (par : QModelIndex) (needle : string)
    (max_nodes : Z) (w : MainWindow) :
  shallow m depth par = true →
  popped (snd (_expand_matching_under m par needle max_nodes w))
  = popped w ++ take (Z.to_nat max_nodes) (preorder m depth par).
Proof. apply walk_popped_preorder. Qed.

End WalkPreorder.

Lemma walk_is_preorder_witness :
  shallow Demo.model 2 [0; 0]%nat = true
  ∧ popped (snd (_expand_matching_under Demo.model [0; 0]%nat "x" 4
                   Demo.start))
    = [[0; 0]; [0; 0; 0]; [0; 0; 0; 0]; [1; 0; 0; 0]]%nat.
Proof.
  split; [reflexivity|].
  apply (walk_is_preorder Demo.model 2 [0; 0]%nat "x" 4 Demo.start).
  reflexivity.
Defined.

(** ** The walk at its edges *)

(** X5. With no allowance ([max_nodes] zero or negative) the walk does
    nothing and returns [max_nodes]; started at the invalid index it takes
    that one entry off the stack, expands nothing and returns
    [max_nodes - 1]. *)
Theorem walk_edge_cases (m : QFileSystemModel) (needle : string)
    (w : MainWindow) :
  (∀ par max_nodes,
     (max_nodes ≤ 0)%Z →
     _expand_matching_under m par needle max_nodes w = (max_nodes, w))
  ∧ (∀ max_nodes,
       (0 < max_nodes)%Z →
       _expand_matching_under m [] needle max_nodes w
       = ((max_nodes - 1)%Z, note_pop [] w)).
Proof.
  split.
  - intros par max_nodes Hle. unfold _expand_matching_under, walk_from.
    cbv zeta. replace (Z.to_nat max_nodes) with 0%nat by lia. done.
  - intros max_nodes Hpos. unfold _expand_matching_under, walk_from.
    cbv zeta. destruct (Z.to_nat max_nodes) as [|n] eqn:Hn; [lia|].
    simpl. apply Z.ltb_lt in Hpos. rewrite Hpos. simpl.
    destruct n; done.
Qed.

Lemma walk_edge_cases_witness :
  _expand_matching_under Demo.model [0; 0]%nat "main" 0 Demo.start
  = (0%Z, Demo.start)
  ∧ _expand_matching_under Demo.model [] "main" 4000 Demo.start
    = (3999%Z, note_pop [] Demo.start).
Proof.
  split.
  - apply (proj1 (walk_edge_cases Demo.model "main" Demo.start)). lia.
  - apply (proj2 (walk_edge_cases Demo.model "main" Demo.start) 4000%Z). lia.
Defined.

(** ** What the filter depends on *)

Section FilterDetermined.

Variable m : QFileSystemModel.

Lemma walk_loop_same_tree (fuel : nat) (needle : string)
    (st1 st2 : walk_state) :
  ws_stack st1 = ws_stack st2 →
  ws_remaining st1 = ws_remaining st2 →
  expanded (ws_win st1) = expanded (ws_win st2) →
  expanded (ws_win (walk_loop m fuel needle st1))
  = expanded (ws_win (walk_loop m fuel needle st2)).
Proof.
  revert st1 st2. induction fuel as [|fuel IH]; intros st1 st2 Hs Hr He;
    simpl; [done|].
  rewrite <- Hs, <- Hr.
  destruct (ws_stack st1) as [|idx stk] eqn:Hs1; simpl; [done|].
  destruct (0 <? ws_remaining st1)%Z; [|done].
  symmetry in Hs.
  destruct (walk_iter_spec m needle st1 idx stk Hs1) as (_ & Hr1 & _ & _ & He1).
  destruct (walk_iter_spec m needle st2 idx stk Hs) as (_ & Hr2 & _ & _ & He2).
  apply IH.
  - by rewrite (walk_iter_stack m needle st1 idx stk Hs1),
               (walk_iter_stack m needle st2 idx stk Hs).
  - rewrite Hr1, Hr2. by rewrite Hr.
  - apply leibniz_equiv. apply set_equiv. intros a.
    rewrite He1, He2, He. done.
Qed.

(** X6. What the filter leaves expanded depends on the model, the needle
    and the root of the view only: two windows with the same root come out
    with the same expanded set, and filtering a second time with the same
    needle changes nothing in the tree. *)
Theorem filter_tree_determined (needle : string) (w1 w2 : MainWindow) :
  rootIndex w1 = rootIndex w2 →
  expanded (_filter_tree m needle w1) = expanded (_filter_tree m needle w2)
  ∧ expanded (_filter_tree m needle (_filter_tree m needle w1))
    = expanded (_filter_tree m needle w1).
Proof.
  assert (∀ u1 u2, rootIndex u1 = rootIndex u2 →
                   expanded (_filter_tree m needle u1)
                   = expanded (_filter_tree m needle u2)) as Hdet.
  { intros u1 u2 Hr. unfold _filter_tree, _expand_matching_under. cbv zeta.
    destruct (PyStr.truthy needle);
      cbn [negb snd expanded rootIndex tree_setUpdatesEnabled
           tree_collapseAll set_expanded]; [|reflexivity].
    unfold walk_from. rewrite Hr. apply walk_loop_same_tree; reflexivity. }
  intros Hr. split; [by apply Hdet|]. apply Hdet.
  destruct (filter_tree_frame m needle w1) as [Ho _].
  unfold outside_tree in Ho. by simplify_eq.
Qed.

(** X7. When a search with a needle that is not empty has visited fewer
    than 4000 nodes, every node below the root of the view that can be
    reached through the loaded directories and whose lowered name holds the
    needle is on display. *)
Theorem search_shows_every_match (w : MainWindow) :
  let needle := PyStr.lower (PyStr.strip (search_text w)) in
  let w' := _apply_name_filter m w in
  needle ≠ EmptyString →
  (length (popped w') < length (popped w) + 4000)%nat →
  ∀ n, reachable m (rootIndex w) n → n ≠ rootIndex w →
       name_matches m needle n = true → visible m w' n = true.
Proof.
  cbv zeta. unfold _apply_name_filter.
  set (needle := PyStr.lower (PyStr.strip (search_text w))).
  intros Hne Hlen n Hn Hnr Hm.
  assert (rootIndex (_filter_tree m needle w) = rootIndex w) as Hroot.
  { destruct (filter_tree_frame m needle w) as [Ho _].
    unfold outside_tree in Ho. by simplify_eq. }
  assert (∀ a, at_or_above a n → a ∈ expanded (_filter_tree m needle w))
    as Hexp.
  { revert Hlen. unfold _filter_tree. cbv zeta.
    apply truthy_true in Hne. rewrite Hne. simpl negb. cbv iota.
    set (w0 := tree_collapseAll (tree_setUpdatesEnabled false w)).
    simpl. intros Hlen a Ha.
    destruct (walk_from_spec m (rootIndex w) needle 4000 w0)
      as (visited & Hp & Hrem & _).
    assert (0 < fst (_expand_matching_under m (rootIndex w) needle 4000 w0))%Z
      as Hpos.
    { unfold _expand_matching_under. simpl.
      rewrite Hp, length_app in Hlen. simpl in Hlen. lia. }
    destruct (walk_reaches_all m (rootIndex w) needle 4000 w0 Hpos)
      as (visited' & _ & _ & Hall).
    apply (Hall n a); try done. by destruct Hn. }
  clear Hlen Hm. revert Hnr Hexp. induction Hn as [|p r Hp IH Hv Hd Hr].
  { done. }
  intros _ Hexp. rewrite visible_cons, Hroot.
  apply andb_true_iff. split; [by apply Nat.ltb_lt|].
  destruct (decide (p = rootIndex w)) as [|Hpr]; [done|].
  rewrite Hd. simpl. apply andb_true_iff. split.
  - apply bool_decide_eq_true. apply Hexp. split; [done|].
    by apply suffix_cons_r.
  - apply IH; [done|]. intros a [Hva Hsa]. apply Hexp.
    split; [done|]. by apply suffix_cons_r.
Qed.

End FilterDetermined.

Lemma filter_tree_determined_witness :
  expanded (_filter_tree Demo.model "py" Demo.start)
  = expanded (_filter_tree Demo.model "py"
                (Demo.typed "main" Demo.start)).
Proof.
  apply (proj1 (filter_tree_determined Demo.model "py" Demo.start
                  (Demo.typed "main" Demo.start)
                  ltac:(vm_compute; reflexivity))).
Defined.

Lemma search_shows_every_match_witness :
  visible Demo.model
    (_apply_name_filter Demo.model (set_search_text " Main " Demo.start))
    [0; 0; 0; 0]%nat = true.
Proof.
  apply (search_shows_every_match Demo.model
           (set_search_text " Main " Demo.start)).
  - vm_compute. discriminate.
  - vm_compute. lia.
  - apply reach_child; [apply reach_child; [apply reach_start| | |]| | |];
      vm_compute; try reflexivity; lia.
  - vm_compute. discriminate.
  - vm_compute. reflexivity.
Defined.

(** ** The patterns of the dialog *)

Lemma patterns_unfold (text : string) :
  patterns text
  = filter (λ p, p ≠ EmptyString)
      (map PyStr.strip (PyStr.split ";" (PyStr.strip text))).
Proof.
  unfold patterns. cbv zeta.
  destruct (PyStr.strip text) as [|c s] eqn:Hs; [reflexivity|].
  simpl negb. cbv iota. apply list_filter_iff. intros p. apply truthy_true.
Qed.

Lemma rstrip_idemp (s : string) :
  PyStr.rstrip (PyStr.rstrip s) = PyStr.rstrip s.
Proof.
  induction s as [|c s IH]; simpl; [done|].
  destruct (PyStr.rstrip s) as [|c' t] eqn:Ht.
  - destruct (PyStr.is_space c) eqn:Hc; simpl; [done|]. by rewrite Hc.
  - change (PyStr.rstrip (String c (String c' t)))
      with (match PyStr.rstrip (String c' t) with
            | EmptyString =>
                if PyStr.is_space c then EmptyString else String c EmptyString
            | t' => String c t'
            end).
    by rewrite IH.
Qed.

Lemma lstrip_starts_clean (s : string) : starts_clean (PyStr.lstrip s).
Proof.
  induction s as [|c s IH]; simpl; [done|].
  by destruct (PyStr.is_space c) eqn:Hc.
Qed.

Lemma rstrip_starts_clean (s : string) :
  starts_clean s → starts_clean (PyStr.rstrip s).
Proof.
  destruct s as [|c s]; simpl; [done|]. intros Hc.
  destruct (PyStr.rstrip s); [by rewrite Hc|done].
Qed.

Lemma lstrip_clean (s : string) : starts_clean s → PyStr.lstrip s = s.
Proof. destruct s as [|c s]; simpl; [done|]. by intros ->. Qed.

Lemma strip_idemp (s : string) : PyStr.strip (PyStr.strip s) = PyStr.strip s.
Proof.
  unfold PyStr.strip.
  rewrite (lstrip_clean (PyStr.rstrip (PyStr.lstrip s))).
  - apply rstrip_idemp.
  - apply rstrip_starts_clean, lstrip_starts_clean.
Qed.

Lemma stripped_ends (p : string) :
  PyStr.strip p = p → PyStr.lstrip p = p ∧ PyStr.rstrip p = p.
Proof.
  intros Hp. split.
  - rewrite <- Hp at 1 2. unfold PyStr.strip. apply lstrip_clean.
    apply rstrip_starts_clean, lstrip_starts_clean.
  - rewrite <- Hp at 1 2. unfold PyStr.strip. apply rstrip_idemp.
Qed.

Lemma lstrip_chars (s : string) (c : ascii) :
  In c (list_ascii_of_string (PyStr.lstrip s)) →
  In c (list_ascii_of_string s).
Proof.
  induction s as [|a s IH]; simpl; [done|].
  destruct (PyStr.is_space a); simpl; [|done]. intros H. right. by apply IH.
Qed.

Lemma rstrip_chars (s : string) (c : ascii) :
  In c (list_ascii_of_string (PyStr.rstrip s)) →
  In c (list_ascii_of_string s).
Proof.
  induction s as [|a s IH]; simpl; [done|].
  destruct (PyStr.rstrip s) as [|b t].
  - destruct (PyStr.is_space a); simpl; [done|]. intros [?|[]]. by left.
  - simpl. intros [?|H]; [by left|]. right. by apply IH.
Qed.

Lemma strip_no_semicolon (s : string) :
  no_semicolon s → no_semicolon (PyStr.strip s).
Proof.
  intros Hs c Hc. apply Hs. unfold PyStr.strip in Hc.
  by apply lstrip_chars, rstrip_chars.
Qed.

Lemma split_no_semicolon (s p : string) :
  In p (PyStr.split ";" s) → no_semicolon p.
Proof.
  revert p. induction s as [|a s IH]; simpl; intros p.
  - intros [<-|[]]. intros c [].
  - destruct (Ascii.eqb a ";") eqn:Ha.
    + intros [<-|Hp]; [intros c []|by apply IH].
    + destruct (PyStr.split ";" s) as [|h t]; simpl.
      * intros [<-|[]]. intros c [<-|[]]. intros ->. by rewrite Ascii.eqb_refl in Ha.
      * intros [<-|Hp].
        -- intros c [<-|Hc].
           ++ intros ->. by rewrite Ascii.eqb_refl in Ha.
           ++ apply (IH h); [by left|done].
        -- apply IH. by right.
Qed.

Lemma patterns_elem_tidy (text p : string) :
  p ∈ patterns text → tidy_pattern p.
Proof.
  rewrite patterns_unfold. intros [Hne Hin]%list_elem_of_filter.
  apply list_elem_of_fmap in Hin as (q & -> & Hq).
  apply list_elem_of_In in Hq. split; [done|]. split.
  - apply strip_idemp.
  - apply strip_no_semicolon. by apply (split_no_semicolon _ _ Hq).
Qed.

(** X8. Every pattern the dialog returns is tidy: it is not empty, has no
    blank at either end and holds no semicolon. *)
Theorem patterns_tidy (text p : string) :
  p ∈ patterns text → tidy_pattern p.
Proof. apply patterns_elem_tidy. Qed.

Lemma patterns_tidy_witness : tidy_pattern "*.md".
Proof.
  apply (patterns_tidy " *.py ; ;*.md" "*.md").
  apply list_elem_of_In. vm_compute. right. left. reflexivity.
Defined.

Lemma append_nil_l (s : string) : (EmptyString ++ s)%string = s.
Proof. reflexivity. Qed.

Lemma append_cons_l (c : ascii) (a s : string) :
  (String c a ++ s)%string = String c (a ++ s).
Proof. reflexivity. Qed.

Lemma rstrip_cons (c : ascii) (s : string) :
  PyStr.rstrip (String c s)
  = match PyStr.rstrip s with
    | EmptyString =>
        if PyStr.is_space c then EmptyString else String c EmptyString
    | t => String c t
    end.
Proof. reflexivity. Qed.

Lemma rstrip_app_nonempty (a b : string) :
  PyStr.rstrip b ≠ EmptyString →
  PyStr.rstrip (a ++ b) = (a ++ PyStr.rstrip b)%string.
Proof.
  intros Hb. induction a as [|c a IH].
  - by rewrite !append_nil_l.
  - rewrite !append_cons_l, rstrip_cons, IH.
    destruct (a ++ PyStr.rstrip b)%string eqn:E; [|done].
    destruct a; [by rewrite append_nil_l in E|by rewrite append_cons_l in E].
Qed.

Lemma split_one (x : string) :
  no_semicolon x → PyStr.split ";" x = [x].
Proof.
  induction x as [|c x IH]; intros Hx; simpl; [done|].
  destruct (Ascii.eqb_spec c ";") as [->|_].
  - exfalso. apply (Hx ";"%char); [by left|done].
  - rewrite IH; [done|]. intros d Hd. apply Hx. by right.
Qed.

Lemma split_app_sep (x s : string) :
  no_semicolon x →
  PyStr.split ";" (x ++ String ";" s) = x :: PyStr.split ";" s.
Proof.
  induction x as [|c x IH]; intros Hx; simpl; [done|].
  destruct (Ascii.eqb_spec c ";") as [->|_].
  - exfalso. apply (Hx ";"%char); [by left|done].
  - rewrite IH; [done|]. intros d Hd. apply Hx. by right.
Qed.

Lemma join_cons2 (sep x y : string) (l : list string) :
  PyStr.join sep (x :: y :: l) = (x ++ sep ++ PyStr.join sep (y :: l))%string.
Proof. reflexivity. Qed.

Lemma join_tidy (l : list string) :
  l ≠ [] → Forall tidy_pattern l →
  PyStr.split ";" (PyStr.join ";" l) = l
  ∧ starts_clean (PyStr.join ";" l)
  ∧ PyStr.rstrip (PyStr.join ";" l) = PyStr.join ";" l
  ∧ PyStr.join ";" l ≠ EmptyString.
Proof.
  induction l as [|x l IH]; intros Hne Hall; [done|].
  apply Forall_cons in Hall as [(Hx & Hsx & Hnx) Hall].
  destruct (stripped_ends x Hsx) as [Hlx Hrx].
  assert (starts_clean x) as Hcx.
  { rewrite <- Hlx. apply lstrip_starts_clean. }
  destruct l as [|y l].
  - simpl. split; [by apply split_one|]. done.
  - destruct (IH ltac:(done) Hall) as (Hsp & _ & Hr & Hj).
    rewrite join_cons2. set (rest := PyStr.join ";" (y :: l)) in *.
    change (x ++ ";" ++ rest)%string with (x ++ String ";" rest)%string.
    split; [by rewrite split_app_sep, Hsp|]. split; [|split].
    + destruct x; [done|]. exact Hcx.
    + assert (PyStr.rstrip (String ";" rest) = String ";" rest) as Hr'.
      { simpl. rewrite Hr. by destruct rest. }
      rewrite rstrip_app_nonempty; by rewrite Hr'.
    + by destruct x.
Qed.

(** X9. The text the status bar shows for a filter reads back as the same
    filter: parsing the patterns joined by semicolons gives the patterns
    again. *)
Theorem patterns_join_round_trip (text : string) :
  patterns (PyStr.join ";" (patterns text)) = patterns text.
Proof.
  assert (Forall tidy_pattern (patterns text)) as Hall.
  { apply Forall_forall. intros p Hp. by apply (patterns_elem_tidy text). }
  revert Hall. generalize (patterns text). intros l Hall.
  destruct (decide (l = [])) as [->|Hne]; [done|].
  destruct (join_tidy l Hne Hall) as (Hsp & Hc & Hr & _).
  rewrite patterns_unfold. unfold PyStr.strip at 2.
  rewrite (lstrip_clean _ Hc), Hr, Hsp. clear Hsp Hc Hr Hne.
  induction l as [|p l IH]; [done|].
  apply Forall_cons in Hall as [(Hp & Hsp & _) Hall].
  simpl. rewrite Hsp. rewrite filter_cons_True by done.
  f_equal. by apply IH.
Qed.

(** ** The handlers, one by one *)

Section HandlerShapes.

Variable os : OsPath.
Variable m : QFileSystemModel.

(** [setText] leaves everything outside the tree and the search box as it
    was, and leaves updates on when they were on. *)
Lemma search_setText_keeps (s : string) (w : MainWindow) :
  let w' := search_setText m s w in
  rootIndex w' = rootIndex w
  ∧ selectedRows w' = selectedRows w
  ∧ status_message w' = status_message w
  ∧ status_timeout w' = status_timeout w
  ∧ clipboard w' = clipboard w
  ∧ nameFilters w' = nameFilters w
  ∧ nameFilterDisables w' = nameFilterDisables w
  ∧ warnings w' = warnings w
  ∧ startfile_calls w' = startfile_calls w
  ∧ (updatesEnabled w = true → updatesEnabled w' = true).
Proof.
  cbv zeta. unfold search_setText.
  destruct (String.eqb s (search_text w)); [done|].
  unfold _apply_name_filter.
  destruct (filter_tree_frame m
              (PyStr.lower (PyStr.strip (search_text (set_search_text s w))))
              (set_search_text s w)) as [Ho Hu].
  unfold outside_tree in Ho.
  cbn [rootIndex selectedRows search_text status_message status_timeout
       clipboard nameFilters nameFilterDisables warnings startfile_calls
       set_search_text] in Ho.
  by simplify_eq.
Qed.

Lemma set_root_shape (folder : string) (w : MainWindow) :
  set_root os m folder w
  = (if isdir os (abspath os folder)
     then search_setText m EmptyString
            (showMessage ("Root: " ++ Path_str os (abspath os folder)) 0
               (tree_setRootIndex (index_of_path m (abspath os folder)) w))
     else QMessageBox_warning "Not a folder"
            ("That path is not a directory:" ++ nl ++ abspath os folder) w).
Proof. unfold set_root. cbv zeta. by destruct (isdir os (abspath os folder)). Qed.

Lemma copy_selected_path_shape (w : MainWindow) :
  copy_selected_path m w = w
  ∨ ∃ path, path ≠ EmptyString
            ∧ selected_path m w = Some path
            ∧ copy_selected_path m w
              = showMessage ("Copied: " ++ path) 2500
                  (clipboard_setText path w).
Proof.
  unfold copy_selected_path. destruct (selected_path m w) as [path|];
    [|by left].
  destruct (PyStr.truthy path) eqn:Ht; [|by left].
  right. exists path. by apply truthy_true in Ht.
Qed.

Lemma open_in_explorer_shape (w : MainWindow) :
  open_in_explorer os m w = w
  ∨ ∃ p, open_in_explorer os m w = os_startfile p w.
Proof.
  unfold open_in_explorer. destruct (selected_path m w) as [path|];
    [|by left].
  destruct (PyStr.truthy path); [|by left]. right.
  destruct (isdir os path); eauto.
Qed.

Lemma filter_by_patterns_shape (accepted : bool) (text : string)
    (w : MainWindow) :
  filter_by_patterns accepted text w = w
  ∨ filter_by_patterns accepted text w = clear_pattern_filter w
  ∨ (patterns text ≠ []
     ∧ filter_by_patterns accepted text w
       = showMessage ("Filter: " ++ PyStr.join ";" (patterns text)) 4000
           (model_setNameFilterDisables false
              (model_setNameFilters (patterns text) w))).
Proof.
  unfold filter_by_patterns. destruct accepted; [|by left]. cbv zeta.
  destruct (patterns text) as [|p l] eqn:Hp; [right; by left|].
  right. right. done.
Qed.

End HandlerShapes.

(** ** What holds after any sequence of events *)

Section WindowInvariant.

Variable os : OsPath.
Variable m : QFileSystemModel.

Lemma prefix_append (s t : string) : String.prefix s (s ++ t) = true.
Proof.
  induction s as [|c s IH]; [by destruct t|].
  rewrite append_cons_l. simpl. by destruct (ascii_dec c c).
Qed.

(** [window_ok] reads six fields of the window only. *)
Lemma window_ok_same (w w' : MainWindow) :
  updatesEnabled w' = updatesEnabled w →
  nameFilters w' = nameFilters w →
  nameFilterDisables w' = nameFilterDisables w →
  warnings w' = warnings w →
  status_message w' = status_message w →
  status_timeout w' = status_timeout w →
  window_ok w → window_ok w'.
Proof.
  unfold window_ok, status_ok. intros -> -> -> -> -> ->. done.
Qed.

Lemma window_ok_search_setText (s : string) (w : MainWindow) :
  window_ok w → window_ok (search_setText m s w).
Proof.
  intros Hok. pose proof (search_setText_keeps m s w) as Hk. cbv zeta in Hk.
  destruct Hk as (_ & _ & Hsm & Hst & _ & Hnf & Hnd & Hw & _ & Hu).
  apply (window_ok_same w); try done.
  rewrite Hu; [symmetry|]; apply Hok.
Qed.

Lemma window_ok_showMessage_root (x : string) (w : MainWindow) :
  window_ok w → window_ok (showMessage ("Root: " ++ x) 0 w).
Proof.
  intros (Hu & Hf & Ht & Hw & _). repeat split; try done; try apply Hf.
  left. split; [done|]. apply prefix_append.
Qed.

Lemma window_ok_set_root (folder : string) (w : MainWindow) :
  window_ok w → window_ok (set_root os m folder w).
Proof.
  intros Hok. rewrite set_root_shape.
  destruct (isdir os (abspath os folder)).
  - apply window_ok_search_setText, window_ok_showMessage_root.
    by apply (window_ok_same w).
  - destruct Hok as (Hu & Hf & Ht & Hw & Hs).
    repeat split; try done; try apply Hf.
    apply Forall_app. split; [done|]. by apply Forall_singleton.
Qed.

Lemma window_ok_choose_folder (chosen : string) (w : MainWindow) :
  window_ok w → window_ok (choose_folder os m chosen w).
Proof.
  intros Hok. unfold choose_folder.
  destruct (PyStr.truthy chosen); [|done]. by apply window_ok_set_root.
Qed.

Lemma window_ok_copy (w : MainWindow) :
  window_ok w → window_ok (copy_selected_path m w).
Proof.
  intros Hok.
  destruct (copy_selected_path_shape m w) as [->|(path & _ & _ & ->)];
    [done|].
  destruct Hok as (Hu & Hf & Ht & Hw & Hs).
  repeat split; try done; try apply Hf.
  right. left. split; [done|]. left. apply prefix_append.
Qed.

Lemma window_ok_open (w : MainWindow) :
  window_ok w → window_ok (open_in_explorer os m w).
Proof.
  intros Hok. destruct (open_in_explorer_shape os m w) as [->|(p & ->)];
    [done|].
  by apply (window_ok_same w).
Qed.

Lemma window_ok_clear (w : MainWindow) :
  window_ok w → window_ok (clear_pattern_filter w).
Proof.
  intros (Hu & Hf & Ht & Hw & Hs). repeat split; try done.
  right. left. split; [done|]. by right.
Qed.

Lemma window_ok_filter (accepted : bool) (text : string) (w : MainWindow) :
  window_ok w → window_ok (filter_by_patterns accepted text w).
Proof.
  intros Hok.
  destruct (filter_by_patterns_shape accepted text w)
    as [->|[->|(Hne & ->)]]; [done|by apply window_ok_clear|].
  destruct Hok as (Hu & Hf & Ht & Hw & Hs).
  repeat split; try done.
  - apply Forall_forall. intros p Hp. by apply (patterns_elem_tidy text).
  - right. right. split; [done|]. apply prefix_append.
Qed.

Lemma window_ok_handle (ev : event) (w : MainWindow) :
  window_ok w → window_ok (handle os m ev w).
Proof.
  intros Hok. destruct ev as [chosen|text| | | |acc text| |idx pick|rows|idx|idx];
    simpl handle.
  - by apply window_ok_choose_folder.
  - by apply window_ok_search_setText.
  - by apply window_ok_search_setText.
  - by apply window_ok_copy.
  - by apply window_ok_open.
  - by apply window_ok_filter.
  - by apply window_ok_clear.
  - unfold _open_context_menu. cbv zeta.
    assert (window_ok (if isValid idx then tree_setCurrentIndex idx w else w))
      as Hok'.
    { destruct (isValid idx); [|done]. by apply (window_ok_same w). }
    destruct pick.
    + done.
    + by apply window_ok_copy.
    + by apply window_ok_open.
    + by apply window_ok_choose_folder.
  - by apply (window_ok_same w).
  - by apply (window_ok_same w).
  - by apply (window_ok_same w).
Qed.

Lemma window_ok_init : window_ok (MainWindow_init os m).
Proof.
  repeat split; try done. left. split; [done|]. apply prefix_append.
Qed.

(** X10. After any sequence of events from start-up, screen updates are
    switched on, the filter-disables switch of the model is on exactly when
    no name filter is set, every name filter is a tidy pattern, every
    warning that was shown is titled "Not a folder", and the status bar
    holds a "Root: " message to stay, a "Copied: " or filter-cleared message
    for 2500 ms, or a "Filter: " message for 4000 ms. *)
Theorem window_ok_always (evs : list event) :
  window_ok (run os m evs (MainWindow_init os m)).
Proof.
  unfold run. generalize window_ok_init.
  generalize (MainWindow_init os m). induction evs as [|ev evs IH];
    intros w Hok; simpl; [done|].
  apply IH. by apply window_ok_handle.
Qed.

End WindowInvariant.

(** ** What each event can touch *)

Section Effects.

Variable os : OsPath.
Variable m : QFileSystemModel.

Lemma choose_folder_keeps (chosen : string) (w : MainWindow) :
  let w' := choose_folder os m chosen w in
  clipboard w' = clipboard w
  ∧ startfile_calls w' = startfile_calls w
  ∧ nameFilters w' = nameFilters w
  ∧ nameFilterDisables w' = nameFilterDisables w
  ∧ selectedRows w' = selectedRows w.
Proof.
  cbv zeta. unfold choose_folder.
  destruct (PyStr.truthy chosen); cbn [negb]; [|done].
  rewrite set_root_shape. destruct (isdir os (abspath os chosen)); [|done].
  match goal with |- context [search_setText m ?s ?w0] =>
    pose proof (search_setText_keeps m s w0) as Hk end.
  cbv zeta in Hk.
  destruct Hk as (_ & Hsel & _ & _ & Hc & Hf & Hd & _ & Hs & _).
  rewrite Hsel, Hc, Hf, Hd, Hs. done.
Qed.

Lemma current_index_keeps (idx : QModelIndex) (w : MainWindow) :
  let w0 := if isValid idx then tree_setCurrentIndex idx w else w in
  clipboard w0 = clipboard w
  ∧ startfile_calls w0 = startfile_calls w
  ∧ warnings w0 = warnings w
  ∧ rootIndex w0 = rootIndex w
  ∧ nameFilters w0 = nameFilters w
  ∧ nameFilterDisables w0 = nameFilterDisables w
  ∧ search_text w0 = search_text w
  ∧ popped w0 = popped w.
Proof. cbv zeta. by destruct (isValid idx). Qed.

(** X11. Each event touches its own part of the window only.  The
    clipboard changes on a copy alone; [os.startfile] is called on a reveal
    alone; a warning is shown and the root moved on a folder choice alone;
    the model's name filters change through the pattern dialog or its
    clearing alone; and the search text changes, and the search walk runs,
    only when the search box is edited or reset or a folder is chosen. *)
Theorem effects_confined (ev : event) (w : MainWindow) :
  let w' := handle os m ev w in
  (may_copy ev = false → clipboard w' = clipboard w)
  ∧ (may_reveal ev = false → startfile_calls w' = startfile_calls w)
  ∧ (may_choose ev = false →
       warnings w' = warnings w ∧ rootIndex w' = rootIndex w)
  ∧ (may_filter ev = false →
       nameFilters w' = nameFilters w
       ∧ nameFilterDisables w' = nameFilterDisables w)
  ∧ (may_search ev = false →
       search_text w' = search_text w ∧ popped w' = popped w).
Proof.
  cbv zeta.
  destruct ev as [chosen|text| | | |acc text| |idx pick|rows|idx|idx];
    simpl handle; simpl may_copy; simpl may_reveal; simpl may_choose;
    simpl may_filter; simpl may_search.
  - pose proof (choose_folder_keeps chosen w) as Hk. cbv zeta in Hk.
    destruct Hk as (Hc' & Hs' & Hf' & Hd' & _).
      rewrite Hc', Hs', Hf', Hd'. repeat split; done.
  - pose proof (search_setText_keeps m text w) as Hk. cbv zeta in Hk.
    destruct Hk as (Hr & _ & _ & _ & Hc & Hf & Hd & Hw & Hs & _).
    rewrite Hr, Hc, Hf, Hd, Hw, Hs. repeat split; done.
  - unfold reset_search.
    pose proof (search_setText_keeps m EmptyString w) as Hk. cbv zeta in Hk.
    destruct Hk as (Hr & _ & _ & _ & Hc & Hf & Hd & Hw & Hs & _).
    rewrite Hr, Hc, Hf, Hd, Hw, Hs. repeat split; done.
  - destruct (copy_selected_path_shape m w) as [->|(p & _ & _ & ->)];
      repeat split; done.
  - destruct (open_in_explorer_shape os m w) as [->|(p & ->)];
      repeat split; done.
  - destruct (filter_by_patterns_shape acc text w) as [->|[->|(_ & ->)]];
      repeat split; done.
  - repeat split; done.
  - unfold _open_context_menu. cbv zeta.
    pose proof (current_index_keeps idx w) as Hw0. cbv zeta in Hw0.
    destruct Hw0 as (Hc & Hs & Hw & Hr & Hf & Hd & Ht & Hp).
    set (w0 := if isValid idx then tree_setCurrentIndex idx w else w) in *.
    destruct pick as [| | |chosen].
    + repeat split; done.
    + destruct (copy_selected_path_shape m w0) as [->|(p & _ & _ & ->)];
        repeat split; done.
    + destruct (open_in_explorer_shape os m w0) as [->|(p & ->)];
        repeat split; done.
    + pose proof (choose_folder_keeps chosen w0) as Hk. cbv zeta in Hk.
      destruct Hk as (Hc' & Hs' & Hf' & Hd' & _).
      rewrite Hc', Hs', Hf', Hd'. repeat split; done.
  - repeat split; done.
  - repeat split; done.
  - repeat split; done.
Qed.

(** X12. A right click on a row makes that row the selection before the
    menu acts: "Copy path" then copies the path of the row under the
    cursor, whatever was selected before.  A right click on no row leaves
    the selection alone, and the menu acts on what was selected. *)
Theorem context_menu_acts_on_clicked_row (idx : QModelIndex)
    (w : MainWindow) :
  (isValid idx = true → filePath m idx ≠ EmptyString →
     clipboard (_open_context_menu os m idx PickCopyPath w) = filePath m idx
     ∧ selectedRows (_open_context_menu os m idx PickCopyPath w) = [idx])
  ∧ (isValid idx = true →
     _open_context_menu os m idx PickReveal w
     = os_startfile
         (if isdir os (filePath m idx) then filePath m idx
          else dirname os (filePath m idx))
         (tree_setCurrentIndex idx w)
     ∨ filePath m idx = EmptyString)
  ∧ (∀ pick, _open_context_menu os m [] pick w
             = match pick with
               | PickNothing => w
               | PickCopyPath => copy_selected_path m w
               | PickReveal => open_in_explorer os m w
               | PickChooseFolder chosen => choose_folder os m chosen w
               end).
Proof.
  split; [|split].
  - intros Hv Hne. unfold _open_context_menu. cbv zeta. rewrite Hv.
    unfold copy_selected_path, selected_path, selected_index.
    cbn [selectedRows tree_setCurrentIndex].
    apply truthy_true in Hne. rewrite Hne. done.
  - intros Hv. unfold _open_context_menu. cbv zeta. rewrite Hv.
    unfold open_in_explorer, selected_path, selected_index.
    cbn [selectedRows tree_setCurrentIndex].
    destruct (PyStr.truthy (filePath m idx)) eqn:Ht.
    + left. simpl. by destruct (isdir os (filePath m idx)).
    + right. by apply truthy_false.
  - intros pick. done.
Qed.

End Effects.

Lemma context_menu_acts_on_clicked_row_witness :
  clipboard (_open_context_menu Demo.os Demo.model [2; 0; 0]%nat PickCopyPath
               (Demo.select [1; 0; 0]%nat Demo.start))
  = "C:/proj/notes.txt"%string.
Proof.
  apply (proj1 (context_menu_acts_on_clicked_row Demo.os Demo.model
                  [2; 0; 0]%nat (Demo.select [1; 0; 0]%nat Demo.start))).
  - reflexivity.
  - vm_compute. discriminate.
Defined.

(** ** How the handlers compose *)

Section Composition.

Variable os : OsPath.
Variable m : QFileSystemModel.

Lemma search_setText_empty (w : MainWindow) :
  search_setText m EmptyString w
  = if String.eqb EmptyString (search_text w) then w
    else tree_setUpdatesEnabled true
           (tree_collapseAll (set_search_text EmptyString w)).
Proof. reflexivity. Qed.

(** X13. "Reset search" on an empty search box does nothing at all, so
    rows the user has expanded stay expanded.  On a search box that is not
    empty it empties the box, collapses the whole tree, switches updates on
    and visits no node. *)
Theorem reset_search_spec (w : MainWindow) :
  (search_text w = EmptyString → reset_search m w = w)
  ∧ (search_text w ≠ EmptyString →
       reset_search m w
       = tree_setUpdatesEnabled true
           (tree_collapseAll (set_search_text EmptyString w))
       ∧ search_text (reset_search m w) = EmptyString
       ∧ expanded (reset_search m w) = ∅
       ∧ popped (reset_search m w) = popped w).
Proof.
  unfold reset_search. rewrite search_setText_empty.
  destruct (String.eqb_spec EmptyString (search_text w)) as [He|Hne].
  - split; [done|]. intros Hn. by rewrite <- He in Hn.
  - split; [|done]. intros He. by rewrite He in Hne.
Qed.

(** X14. Clearing the pattern filter forgets whatever the dialog did
    before: clearing after any use of the dialog gives the window that
    clearing alone gives, and clearing twice is clearing once. *)
Theorem clear_forgets_filter (accepted : bool) (text : string)
    (w : MainWindow) :
  clear_pattern_filter (filter_by_patterns accepted text w)
  = clear_pattern_filter w
  ∧ clear_pattern_filter (clear_pattern_filter w) = clear_pattern_filter w.
Proof.
  split; [|done].
  by destruct (filter_by_patterns_shape accepted text w)
    as [->|[->|(_ & ->)]].
Qed.

(** X15. Choosing the same directory twice is choosing it once.  A root
    change collapses the tree exactly when the search box was not empty;
    with an empty search box the expanded rows are left as they were. *)
Theorem set_root_twice (P : string) (w : MainWindow) :
  isdir os (abspath os P) = true →
  set_root os m P (set_root os m P w) = set_root os m P w
  ∧ (search_text w = EmptyString →
       expanded (set_root os m P w) = expanded w)
  ∧ (search_text w ≠ EmptyString → expanded (set_root os m P w) = ∅).
Proof.
  intros Hd. rewrite !set_root_shape, Hd. rewrite !search_setText_empty.
  cbn [search_text showMessage tree_setRootIndex].
  destruct (String.eqb_spec EmptyString (search_text w)) as [He|Hne].
  - cbn [search_text showMessage tree_setRootIndex]. rewrite <- He.
    cbn [String.eqb]. split; [done|]. split; [done|]. intros Hn. done.
  - cbn [search_text tree_setUpdatesEnabled tree_collapseAll set_expanded
         set_search_text String.eqb].
    split; [done|]. split; [|done]. intros He. by rewrite He in Hne.
Qed.

(** X16. The walk only ever expands: what was expanded before it stays
    expanded, and it changes nothing else of the window (root, selection,
    search text, status bar, clipboard, name filters, dialogs and shell
    calls, and the updates switch). *)
Theorem walk_only_expands (par : QModelIndex) (needle : string)
    (max_nodes : Z) (w : MainWindow) :
  expanded w ⊆ expanded (snd (_expand_matching_under m par needle max_nodes w))
  ∧ outside_tree (snd (_expand_matching_under m par needle max_nodes w))
    = outside_tree w
  ∧ updatesEnabled (snd (_expand_matching_under m par needle max_nodes w))
    = updatesEnabled w.
Proof.
  unfold _expand_matching_under. cbv zeta. cbn [snd].
  destruct (walk_from_spec m par needle max_nodes w)
    as (visited & _ & _ & _ & _ & Ho & Hu & He).
  split; [|split; [exact Ho|exact Hu]]. intros a Ha. apply He. by left.
Qed.

End Composition.

Lemma set_root_twice_witness :
  set_root Demo.os Demo.model "src"
    (set_root Demo.os Demo.model "src" (Demo.typed "main" Demo.start))
  = set_root Demo.os Demo.model "src" (Demo.typed "main" Demo.start).
Proof.
  apply (proj1 (set_root_twice Demo.os Demo.model "src"
                  (Demo.typed "main" Demo.start)
                  ltac:(vm_compute; reflexivity))).
Defined.

Lemma reset_search_spec_witness :
  expanded (reset_search Demo.model (Demo.typed "main" Demo.start)) = ∅
  ∧ search_text (reset_search Demo.model (Demo.typed "main" Demo.start))
    = EmptyString.
Proof.
  destruct (proj2 (reset_search_spec Demo.model (Demo.typed "main" Demo.start))
              ltac:(vm_compute; discriminate)) as (_ & Ht & He & _).
  split; [exact He|exact Ht].
Defined.


(** ** The search, from the text to the tree *)

Section SearchRun.

Variable m : QFileSystemModel.

(** [_filter_tree] on a needle that is not empty is the walk, started at
    the root of the view on a collapsed tree, and nothing after it. *)
Lemma filter_tree_unfold (needle : string) (w : MainWindow) :
  needle ≠ EmptyString →
  _filter_tree m needle w
  = tree_setUpdatesEnabled true
      (snd (_expand_matching_under m (rootIndex w) needle 4000
              (tree_collapseAll (tree_setUpdatesEnabled false w)))).
Proof.
  intros Hne. apply truthy_true in Hne. unfold _filter_tree. cbv zeta.
  rewrite Hne. reflexivity.
Qed.

(** What a run of the filter visits and expands. *)
Lemma filter_tree_run (needle : string) (w : MainWindow) :
  needle ≠ EmptyString →
  ∃ visited,
    popped (_filter_tree m needle w) = popped w ++ visited
    ∧ (∀ a, a ∈ expanded (_filter_tree m needle w) ↔
            leads_to_match m needle visited a)
    ∧ head visited = Some (rootIndex w)
    ∧ (∀ v, v ∈ visited → reachable m (rootIndex w) v)
    ∧ ((length visited < 4000)%nat →
       ∀ n, reachable m (rootIndex w) n → n ∈ visited)
    ∧ (∀ depth, shallow m depth (rootIndex w) = true →
         visited = take 4000 (preorder m depth (rootIndex w))).
Proof.
  intros Hne. rewrite (filter_tree_unfold needle w Hne).
  set (w0 := tree_collapseAll (tree_setUpdatesEnabled false w)).
  set (res := _expand_matching_under m (rootIndex w) needle 4000 w0).
  assert (popped (tree_setUpdatesEnabled true (snd res)) = popped (snd res))
    as Ep by reflexivity.
  assert (expanded (tree_setUpdatesEnabled true (snd res)) = expanded (snd res))
    as Ee by reflexivity.
  rewrite Ep, Ee. clear Ep Ee.
  destruct (walk_from_spec m (rootIndex w) needle 4000 w0)
    as (visited & Hp & Hcount & _ & Hhead & _ & _ & He).
  assert (popped (snd res) = popped w ++ visited) as Hp' by exact Hp.
  assert (fst res = ws_remaining (walk_from m (rootIndex w) needle 4000 w0))
    as Hfst by reflexivity.
  assert (∀ a, a ∈ expanded (snd res) ↔
               a ∈ expanded w0 ∨ leads_to_match m needle visited a)
    as He' by exact He.
  exists visited. split; [exact Hp'|]. split; [|split; [|split; [|split]]].
  - intros a. rewrite He'. split; [|by right].
    intros [Ha|Ha]; [|exact Ha]. by apply not_elem_of_empty in Ha.
  - apply Hhead. lia.
  - destruct (walk_popped_reachable m (rootIndex w) needle 4000 w0)
      as (visited' & Hp'' & Hr & _).
    fold res in Hp''. rewrite Hp' in Hp''.
    change (popped w0) with (popped w) in Hp''.
    apply app_inv_head in Hp''. by subst visited'.
  - intros Hlen.
    assert (0 < fst res)%Z as Hpos by (rewrite Hfst; lia).
    destruct (walk_reaches_all m (rootIndex w) needle 4000 w0 Hpos)
      as (visited' & Hp'' & Hall & _).
    fold res in Hp''. rewrite Hp' in Hp''.
    change (popped w0) with (popped w) in Hp''.
    apply app_inv_head in Hp''. by subst visited'.
  - intros depth Hsh.
    pose proof (walk_popped_preorder m depth (rootIndex w) needle 4000 w0 Hsh)
      as Hpre.
    fold res in Hpre. rewrite Hp' in Hpre.
    change (popped w0) with (popped w) in Hpre.
    apply app_inv_head in Hpre. rewrite Hpre. f_equal; lia.
Qed.

(** C7. [_apply_name_filter] collapses the tree and only then walks it.
    What was expanded before has no bearing on the result, and what the
    walk expands is still expanded when the filter returns: the expanded
    nodes are exactly the visited nodes whose lowered name holds the needle
    (the text stripped and lowered) and their ancestors.  On an empty text
    no node is visited and none expanded.  When the needle is not empty the
    walk runs from the root of the view, depth first: it visits only nodes
    reached from the root through directories, all of them when fewer than
    4000 are visited, and on a tree of bounded depth exactly the first 4000
    of the parent-first listing of the root's subtree. *)
Theorem filter_collapses_then_walks (w : MainWindow) :
  let needle := PyStr.lower (PyStr.strip (search_text w)) in
  let w' := _apply_name_filter m w in
  (∀ e, _apply_name_filter m (set_expanded e w) = w')
  ∧ (search_text w = EmptyString →
       expanded w' = ∅ ∧ popped w' = popped w)
  ∧ (popped w' ≠ popped w →
       search_text w ≠ EmptyString
       ∧ ∃ rest, popped w' = popped w ++ rootIndex w :: rest)
  ∧ (PyStr.strip (search_text w) ≠ EmptyString →
       ∃ rest, popped w' = popped w ++ rootIndex w :: rest)
  ∧ ∃ visited,
      popped w' = popped w ++ visited
      ∧ (∀ a, a ∈ expanded w' ↔ leads_to_match m needle visited a)
      ∧ (needle = EmptyString → visited = [])
      ∧ (needle ≠ EmptyString →
           head visited = Some (rootIndex w)
           ∧ (∀ v, v ∈ visited → reachable m (rootIndex w) v)
           ∧ ((length visited < 4000)%nat →
              ∀ n, reachable m (rootIndex w) n → n ∈ visited)
           ∧ (∀ depth, shallow m depth (rootIndex w) = true →
                visited = take 4000 (preorder m depth (rootIndex w)))).
Proof.
  cbv zeta.
  pose proof (apply_name_filter_phases m w) as Hph. cbv zeta in Hph.
  destruct Hph as (H1 & H2 & H3 & H4).
  split; [exact H1|]. split; [exact H2|]. split; [exact H3|].
  split; [exact H4|].
  unfold _apply_name_filter.
  set (needle := PyStr.lower (PyStr.strip (search_text w))).
  destruct (decide (needle = EmptyString)) as [He|Hne].
  - exists []. rewrite He, filter_tree_empty.
    split; [by rewrite app_nil_r|]. split; [|split; [done|done]].
    intros a. split.
    + intros Ha. by apply not_elem_of_empty in Ha.
    + intros (v & Hv & _). by apply elem_of_nil in Hv.
  - destruct (filter_tree_run needle w Hne)
      as (visited & Hp & Hex & Hh & Hr & Hall & Hpre).
    exists visited. split; [exact Hp|]. split; [exact Hex|].
    split; [done|]. intros _.
    split; [exact Hh|]. split; [exact Hr|]. split; [exact Hall|exact Hpre].
Qed.

(** C10. The needle that names are compared with is the search text
    stripped, then lowered: after the filter the expanded nodes are exactly
    the visited nodes whose lowered name holds that needle, and their
    ancestors, and when fewer than 4000 nodes were visited every node
    reached from the root whose lowered name holds it is expanded with all
    its ancestors.  A text of white space only is handled as the empty text
    is: the tree is collapsed, nothing is expanded, no node is visited.
    Blanks around the text and the case of its letters do not change the
    outcome, and neither does the case of the names in the model. *)
Theorem needle_is_stripped_and_lowered (w : MainWindow) :
  let needle := PyStr.lower (PyStr.strip (search_text w)) in
  let w' := _apply_name_filter m w in
  (PyStr.all_space (search_text w) = true →
     w' = set_search_text (search_text w)
            (_apply_name_filter m (set_search_text EmptyString w))
     ∧ expanded w' = ∅
     ∧ popped w' = popped w)
  ∧ (∀ ws1 t ws2 t',
       PyStr.all_space ws1 = true → PyStr.all_space ws2 = true →
       PyStr.lower t = PyStr.lower t' →
       _apply_name_filter m (set_search_text (ws1 ++ t ++ ws2)%string w)
       = set_search_text (ws1 ++ t ++ ws2)%string
           (_apply_name_filter m (set_search_text t' w)))
  ∧ (∀ m', same_up_to_case m m' → _apply_name_filter m' w = w')
  ∧ (∀ a, a ∈ expanded w' →
       ∃ v, name_matches m needle v = true ∧ at_or_above a v)
  ∧ (∃ visited,
       popped w' = popped w ++ visited
       ∧ (∀ a, a ∈ expanded w' ↔ leads_to_match m needle visited a)
       ∧ (needle ≠ EmptyString → head visited = Some (rootIndex w)))
  ∧ (needle ≠ EmptyString →
     (length (popped w') < length (popped w) + 4000)%nat →
     ∀ n a, reachable m (rootIndex w) n → isValid n = true →
            name_matches m needle n = true → at_or_above a n →
            a ∈ expanded w').
Proof.
  cbv zeta.
  destruct (needle_invariances m w) as (H1 & H2 & H3 & H4).
  split; [exact H1|]. split; [exact H2|]. split; [exact H3|].
  split; [exact H4|].
  unfold _apply_name_filter.
  set (needle := PyStr.lower (PyStr.strip (search_text w))).
  split.
  - destruct (decide (needle = EmptyString)) as [He|Hne].
    + exists []. rewrite He, filter_tree_empty.
      split; [by rewrite app_nil_r|]. split; [|done].
      intros a. split.
      * intros Ha. by apply not_elem_of_empty in Ha.
      * intros (v & Hv & _). by apply elem_of_nil in Hv.
    + destruct (filter_tree_run needle w Hne)
        as (visited & Hp & Hex & Hh & _).
      exists visited. split; [exact Hp|]. split; [exact Hex|]. by intros _.
  - intros Hne Hlen n a Hn Hv Hm Ha.
    destruct (filter_tree_run needle w Hne)
      as (visited & Hp & Hex & _ & _ & Hall & _).
    apply Hex. exists n. split; [|by split].
    apply Hall; [|exact Hn]. rewrite Hp, length_app in Hlen. lia.
Qed.

End SearchRun.

Lemma filter_collapses_then_walks_witness :
  (expanded (_apply_name_filter Demo.model Demo.start) = ∅
   ∧ popped (_apply_name_filter Demo.model Demo.start) = popped Demo.start)
  ∧ (∃ rest,
       popped (_apply_name_filter Demo.model
                 (set_search_text "py" Demo.start))
       = popped Demo.start ++ [0; 0]%nat :: rest)
  ∧ popped (_apply_name_filter Demo.model (set_search_text "py" Demo.start))
    = [[0; 0]; [0; 0; 0]; [0; 0; 0; 0]; [1; 0; 0; 0]; [1; 0; 0]; [2; 0; 0]]%nat
  ∧ [1; 0; 0; 0]%nat
    ∈ expanded (_apply_name_filter Demo.model
                  (set_search_text "py" Demo.start)).
Proof.
  split; [|split].
  - apply (proj1 (proj2 (filter_collapses_then_walks Demo.model Demo.start))).
    reflexivity.
  - apply (proj1 (proj2 (proj2 (proj2
             (filter_collapses_then_walks Demo.model
                (set_search_text "py" Demo.start)))))).
    vm_compute. discriminate.
  - destruct (proj2 (proj2 (proj2 (proj2
               (filter_collapses_then_walks Demo.model
                  (set_search_text "py" Demo.start))))))
      as (visited & Hp & Hex & _ & Hrun).
    destruct (Hrun ltac:(vm_compute; discriminate)) as (_ & _ & _ & Hpre).
    pose proof (Hpre 2%nat ltac:(vm_compute; reflexivity)) as Hv.
    split.
    + rewrite Hp, Hv. vm_compute. reflexivity.
    + apply Hex. exists [1; 0; 0; 0]%nat. rewrite Hv.
      split; [apply list_elem_of_In; vm_compute; tauto|].
      split; [reflexivity|]. split; [vm_compute; reflexivity|].
      split; [reflexivity|]. by exists [].
Defined.

Lemma needle_is_stripped_and_lowered_witness :
  expanded (_apply_name_filter Demo.model
              (set_search_text "   " Demo.start)) = ∅
  ∧ _apply_name_filter Demo.model (set_search_text "  MAIN " Demo.start)
    = set_search_text "  MAIN "
        (_apply_name_filter Demo.model (set_search_text "main" Demo.start))
  ∧ [0; 0; 0; 0]%nat
    ∈ expanded (_apply_name_filter Demo.model
                  (set_search_text "  MAIN " Demo.start)).
Proof.
  split; [|split].
  - apply (proj1 (needle_is_stripped_and_lowered Demo.model
                    (set_search_text "   " Demo.start))).
    reflexivity.
  - apply (proj1 (proj2 (needle_is_stripped_and_lowered Demo.model
                           Demo.start))
             "  " "MAIN" " " "main"); reflexivity.
  - apply (proj2 (proj2 (proj2 (proj2 (proj2
             (needle_is_stripped_and_lowered Demo.model
                (set_search_text "  MAIN " Demo.start))))))
             ltac:(vm_compute; discriminate)
             ltac:(vm_compute; lia)
             [0; 0; 0; 0]%nat [0; 0; 0; 0]%nat).
    + apply reach_child; [apply reach_child; [apply reach_start| | |]| | |];
        vm_compute; try reflexivity; lia.
    + reflexivity.
    + vm_compute. reflexivity.
    + split; [reflexivity|]. by exists [].
Defined.
